(** * NFL odds scraper: the worker's run loop, the cell cleaning and the
      input validation of [odds_scraper/odds.py], embedded and verified.

    Layout: Python strings and the [re] engine, the pandas cells and their
    coercion, the per-week pipeline in a state-and-exception monad, the
    cancellable run loop, the window's input validation; then the theorems. *)

From stdpp Require Import base option numbers list strings gmap pretty.
From Stdlib Require Import Ascii QArith.
Close Scope Q_scope.

Set Default Proof Using "Type".

(** ** Python strings

    A Python [str] is a sequence of Unicode code points. *)

Definition char : Type := N.
Definition str : Type := list char.

(** An ASCII literal of the source, as a [str]. *)
Fixpoint py (s : string) : str :=
  match s with
  | EmptyString => []
  | String a s' => N_of_ascii a :: py s'
  end.

(** A number of a numeric column: an integer, a decimal fraction
    [m * 10^e] (the literal that pandas rounds to the nearest double),
    an infinity, or NaN. *)
Inductive num : Type :=
  | NInt (z : Z)
  | NDec (m e : Z)
  | NInf (negative : bool)
  | NNaN.

(** What the installed Python and pandas do where the repository does
    not decide it is taken as a parameter.

    The character tables for code points outside ASCII: [uni_decimal c]
    is the decimal value of [c] when [c] is a decimal digit (category
    Nd), [uni_alnum c] is [str.isalnum], [uni_space c] is [str.isspace].

    What [pd.to_numeric] makes of a numeral of more than 17 digits or
    with an exponent: there its float parser rounds, overflows to an
    infinity or raises, and an integer may leave the 64-bit range, all
    of which depends on the pandas installed. [long_number s] is what it
    gives for the text [s], [None] when it raises.

    The limit of [int] on the digits of a literal,
    [sys.get_int_max_str_digits()]: 0 when there is none. *)
Class Runtime : Type := {
  uni_decimal : char -> option N;
  uni_alnum : char -> bool;
  uni_space : char -> bool;
  long_number : str -> option num;
  int_max_str_digits : nat
}.

(** Tables without any member, a pandas that raises on every long
    numeral, and the default limit of [int]; on ASCII text with short
    numerals every runtime agrees with it. *)
Definition basic_latin : Runtime :=
  {| uni_decimal := fun _ => None;
     uni_alnum := fun _ => false;
     uni_space := fun _ => false;
     long_number := fun _ => None;
     int_max_str_digits := 4300 |}.

Section CharClasses.
Context {U : Runtime}.
Local Open Scope N_scope.

(** [\d] on a [str] pattern: a Unicode decimal digit. *)
Definition is_digit (c : char) : bool :=
  if c <? 128 then (48 <=? c) && (c <=? 57)
  else bool_decide (is_Some (uni_decimal c)).

(** [\w] on a [str] pattern: alphanumeric or the underscore. *)
Definition is_word (c : char) : bool :=
  if c <? 128 then
    ((48 <=? c) && (c <=? 57)) || ((65 <=? c) && (c <=? 90))
    || ((97 <=? c) && (c <=? 122)) || (c =? 95)
  else uni_alnum c.

(** [\s] on a [str] pattern: Unicode whitespace; in ASCII these are
    TAB, LF, VT, FF, CR, the separators FS, GS, RS, US and the space. *)
Definition is_space (c : char) : bool :=
  if c <? 128 then
    ((9 <=? c) && (c <=? 13)) || ((28 <=? c) && (c <=? 31)) || (c =? 32)
  else uni_space c.

(** White space as [int] skips it around a number: in ASCII only TAB,
    LF, VT, FF, CR and the space; outside ASCII, Unicode white space,
    which [int] turns into spaces before it reads the text. *)
Definition int_space (c : char) : bool :=
  if c <? 128 then ((9 <=? c) && (c <=? 13)) || (c =? 32)
  else uni_space c.

(** The value of a decimal digit, as [int] reads it. *)
Definition digit_value (c : char) : option N :=
  if c <? 128 then
    if (48 <=? c) && (c <=? 57) then Some (c - 48) else None
  else uni_decimal c.
End CharClasses.

(** ** The regular expressions of the source

    The fragment of [re] syntax that the three patterns of
    [ScraperWorker.run] use, with CPython's backtracking semantics (greedy
    repetition, leftmost alternative first). *)

Inductive cset : Type :=
  | CDigit                       (* \d *)
  | CWord                        (* \w *)
  | CSpace                       (* \s *)
  | CLit (c : char)              (* a literal character, or an escaped one *)
  | COneOf (cs : list char).     (* [...] *)

Inductive regex : Type :=
  | RBol                                        (* ^ (no MULTILINE flag) *)
  | RSet (cs : cset)                            (* one character *)
  | RRep (cs : cset) (lo : nat) (hi : option nat)  (* cs{lo,hi}, cs+, cs* *)
  | RSeq (r1 r2 : regex)                        (* r1 r2 *)
  | ROpt (r : regex).                           (* (r)? *)

Section Engine.
Context {U : Runtime}.

Definition in_cset (cs : cset) (c : char) : bool :=
  match cs with
  | CDigit => is_digit c
  | CWord => is_word c
  | CSpace => is_space c
  | CLit c' => (c =? c')%N
  | COneOf l => existsb (N.eqb c) l
  end.

Definition hi_allows (hi : option nat) : bool :=
  match hi with Some O => false | _ => true end.

Definition hi_pred (hi : option nat) : option nat :=
  match hi with Some n => Some (pred n) | None => None end.

(** Greedy repetition of a character set: take one more character while
    the set and the upper bound allow it, and fall back to fewer (down
    to [lo]) when the continuation [k] fails. [pos] is the index of the
    first character of [s] in the subject. *)
Fixpoint rep {R} (cs : cset) (lo : nat) (hi : option nat) (pos : nat)
    (s : str) (k : nat -> str -> option R) : option R :=
  let stop := if decide (lo = O) then k pos s else None in
  match s with
  | c :: s' =>
      if in_cset cs c && hi_allows hi then
        match rep cs (pred lo) (hi_pred hi) (S pos) s' k with
        | Some r => Some r
        | None => stop
        end
      else stop
  | [] => stop
  end.

(** The matcher, in continuation-passing style: [exec r pos s k] matches
    [r] at the head of [s] and hands the rest to [k]; [None] from [k]
    makes the matcher backtrack. *)
Fixpoint exec {R} (r : regex) (pos : nat) (s : str)
    (k : nat -> str -> option R) : option R :=
  match r with
  | RBol => if decide (pos = O) then k pos s else None
  | RSet cs =>
      match s with
      | c :: s' => if in_cset cs c then k (S pos) s' else None
      | [] => None
      end
  | RRep cs lo hi => rep cs lo hi pos s k
  | RSeq r1 r2 => exec r1 pos s (fun pos' s' => exec r2 pos' s' k)
  | ROpt r' =>
      match exec r' pos s k with
      | Some x => Some x
      | None => k pos s
      end
  end.

(** One match attempt at position [pos]; the length of the match.
    [must_advance] refuses the empty match, as [re.sub] does right after
    an empty match. *)
Definition match_at (r : regex) (pos : nat) (must_advance : bool)
    (s : str) : option nat :=
  exec r pos s (fun pos' _ =>
    if must_advance && bool_decide (pos' = pos) then None
    else Some (pos' - pos)%nat).

(** [re.search(r, s)]: the leftmost match; [Some g] is its [.group()]. *)
Fixpoint search_from (r : regex) (pos : nat) (s : str) : option str :=
  match match_at r pos false s with
  | Some n => Some (take n s)
  | None =>
      match s with
      | [] => None
      | _ :: s' => search_from r (S pos) s'
      end
  end.

Definition re_search (r : regex) (s : str) : option str :=
  search_from r 0 s.

(** [re.sub(r, repl, s)] for a replacement without group references:
    scan left to right, replace every match, copy the rest. [skip]
    counts the characters of the current match still to be dropped. *)
Fixpoint sub_from (r : regex) (repl : str) (pos skip : nat) (s : str)
    : str :=
  let copy :=
    match s with
    | [] => []
    | c :: s' => c :: sub_from r repl (S pos) 0 s'
    end in
  let drop_match (n : nat) :=
    match s with
    | [] => []
    | _ :: s' => sub_from r repl (S pos) n s'
    end in
  match skip with
  | S n => drop_match n
  | O =>
      match match_at r pos false s with
      | Some (S n) => repl ++ drop_match n
      | Some O =>
          repl ++
          match match_at r pos true s with
          | Some (S n) => repl ++ drop_match n
          | _ => copy
          end
      | None => copy
      end
  end.

Definition re_sub (r : regex) (repl : str) (s : str) : str :=
  sub_from r repl 0 0 s.

(** [str.replace(old, new)] for a single-character [old]. *)
Definition str_replace1 (old : char) (new : str) (s : str) : str :=
  mbind (fun c => if (c =? old)%N then new else [c]) s.
End Engine.

(** The three patterns of [ScraperWorker.run]. *)

Definition ch (a : ascii) : char := N_of_ascii a.

(** [r"^\d{1,2}:\d{2}[AP]M\w{2,3}\s*"] *)
Definition MATCHUP_RE : regex :=
  RSeq RBol
  (RSeq (RRep CDigit 1 (Some 2))
  (RSeq (RSet (CLit (ch ":")))
  (RSeq (RRep CDigit 2 (Some 2))
  (RSeq (RSet (COneOf [ch "A"; ch "P"]))
  (RSeq (RSet (CLit (ch "M")))
  (RSeq (RRep CWord 2 (Some 3))
        (RRep CSpace 0 None))))))).

(** [r"\d+(\.\d+)?"] *)
Definition TOTAL_RE : regex :=
  RSeq (RRep CDigit 1 None)
       (ROpt (RSeq (RSet (CLit (ch "."))) (RRep CDigit 1 None))).

(** [r"[-+]?\d+(\.\d+)?"] *)
Definition SPREAD_RE : regex :=
  RSeq (ROpt (RSet (COneOf [ch "-"; ch "+"]))) TOTAL_RE.

(** U+2212 MINUS SIGN, the first argument of [x.replace] at line 87. *)
Definition MINUS_SIGN : char := 8722%N.

Section Cleaning.
Context {U : Runtime}.

(** The lambda of lines 72-74. *)
Definition clean_matchup (x : str) : str := re_sub MATCHUP_RE [] x.

(** The lambda of lines 75-81. *)
Definition clean_spread (x : str) : str :=
  match re_search SPREAD_RE x with
  | Some g => g
  | None => x
  end.

(** The lambda of lines 82-86. *)
Definition clean_total (x : str) : str :=
  match re_search TOTAL_RE x with
  | Some g => g
  | None => x
  end.

(** The lambda of line 87. *)
Definition clean_moneyline (x : str) : str :=
  str_replace1 MINUS_SIGN (py "-") x.
End Cleaning.

(** ** Exceptions *)

(** The exception classes that matter to [run]: the two classes of its
    [except] clause, a subclass of each, the classes the cell lambdas and
    the column look-ups raise, and any class unrelated to the two caught
    ones. *)
Inductive exn_class : Type :=
  | ValueError
  | UnicodeError                 (* a subclass of ValueError *)
  | WebDriverException
  | TimeoutException             (* a subclass of WebDriverException *)
  | KeyError
  | TypeError
  | AttributeError
  | OtherException (name : string).

Record exn : Type := Exn { exn_cls : exn_class; exn_str : str }.

(** [isinstance(e, ValueError)] and [isinstance(e, WebDriverException)]. *)
Definition is_ValueError (c : exn_class) : bool :=
  match c with ValueError | UnicodeError => true | _ => false end.

Definition is_WebDriverException (c : exn_class) : bool :=
  match c with WebDriverException | TimeoutException => true | _ => false end.

Inductive result (A : Type) : Type :=
  | Ok (a : A)
  | Raise (e : exn).
Arguments Ok {A} a.
Arguments Raise {A} e.

Global Instance result_ret : MRet result := fun A a => Ok a.

Global Instance result_bind : MBind result := fun A B f r =>
  match r with
  | Ok a => f a
  | Raise e => Raise e
  end.

(** ** pandas cells and columns *)

Inductive cell : Type :=
  | CStr (s : str)
  | CNum (n : num).

(** The rational a finite number denotes. *)
Definition num_value (n : num) : option Q :=
  match n with
  | NInt z => Some (inject_Z z)
  | NDec m e =>
      Some (if (0 <=? e)%Z then inject_Z (m * 10 ^ e)
            else Qmake m (Z.to_pos (10 ^ (- e))))
  | _ => None
  end.

(** A DataFrame: its columns in order, each a label and the cells. *)
Definition dataframe : Type := list (str * list cell).

Fixpoint get_column (label : str) (df : dataframe) : option (list cell) :=
  match df with
  | [] => None
  | (l, c) :: df' => if decide (l = label) then Some c else get_column label df'
  end.

(** [df[label] = col]: replaces the column in place, or appends it. *)
Fixpoint set_column (label : str) (col : list cell) (df : dataframe)
    : dataframe :=
  match df with
  | [] => [(label, col)]
  | (l, c) :: df' =>
      if decide (l = label) then (l, col) :: df'
      else (l, c) :: set_column label col df'
  end.

Definition QUOTE : char := 34%N.
Definition APOSTROPHE : char := 39%N.

(** [df[label]] raises [KeyError(label)] when the column is missing; the
    [str] of a [KeyError] is the [repr] of the key. *)
Definition getitem (df : dataframe) (label : str) : result (list cell) :=
  match get_column label df with
  | Some c => Ok c
  | None => Raise (Exn KeyError (APOSTROPHE :: label ++ [APOSTROPHE]))
  end.

(** [Series.apply(f)]: [f] on every cell in order; the first exception
    propagates. *)
Fixpoint series_apply (f : cell -> result cell) (col : list cell)
    : result (list cell) :=
  match col with
  | [] => Ok []
  | x :: col' =>
      match f x with
      | Raise e => Raise e
      | Ok y =>
          match series_apply f col' with
          | Raise e => Raise e
          | Ok ys => Ok (y :: ys)
          end
      end
  end.

Section Lambdas.
Context {U : Runtime}.

(** [re.sub] and [re.search] raise [TypeError] on a cell that is not a
    [str]; a float has no [replace] attribute. *)
Definition re_type_error : exn :=
  Exn TypeError (py "expected string or bytes-like object").

Definition replace_attribute_error : exn :=
  Exn AttributeError (py "'float' object has no attribute 'replace'").

Definition matchup_lambda (x : cell) : result cell :=
  match x with
  | CStr s => Ok (CStr (clean_matchup s))
  | CNum _ => Raise re_type_error
  end.

Definition spread_lambda (x : cell) : result cell :=
  match x with
  | CStr s => Ok (CStr (clean_spread s))
  | CNum _ => Raise re_type_error
  end.

Definition total_lambda (x : cell) : result cell :=
  match x with
  | CStr s => Ok (CStr (clean_total s))
  | CNum _ => Raise re_type_error
  end.

Definition moneyline_lambda (x : cell) : result cell :=
  match x with
  | CStr s => Ok (CStr (clean_moneyline s))
  | CNum _ => Raise replace_attribute_error
  end.
End Lambdas.

(** ** Numeric coercion

    pandas is a library, outside the repository. [pd.to_numeric] with its
    default [errors="raise"] is modelled on what it does to an object
    column: numbers pass through, the empty string becomes NaN, a string
    is read as a decimal literal (blanks around it, a sign, digits with
    an optional fraction, an optional exponent; ASCII only), the
    spellings of infinity are accepted in any letter case, and anything
    else raises [ValueError]. A literal of at most 17 digits without an
    exponent is read as it stands, as an integer when it has no point;
    what a longer one or one with an exponent gives is [long_number]. *)

Section Coercion.
Context {U : Runtime}.

Definition ascii_digit (c : char) : option Z :=
  if (48 <=? c)%N && (c <=? 57)%N then Some (Z.of_N c - 48)%Z else None.

Definition c_isspace (c : char) : bool :=
  ((9 <=? c)%N && (c <=? 13)%N) || (c =? 32)%N.

Fixpoint skip_blanks (s : str) : str :=
  match s with
  | c :: s' => if c_isspace c then skip_blanks s' else s
  | [] => []
  end.

(** Reads a run of ASCII digits onto [acc]; also the number of digits. *)
Fixpoint read_digits (acc : Z) (count : nat) (s : str) : Z * nat * str :=
  match s with
  | c :: s' =>
      match ascii_digit c with
      | Some d => read_digits (10 * acc + d) (S count) s'
      | None => (acc, count, s)
      end
  | [] => (acc, count, [])
  end.

Definition read_sign (s : str) : bool * str :=
  match s with
  | c :: s' =>
      if (c =? 45)%N then (true, s')
      else if (c =? 43)%N then (false, s')
      else (false, s)
  | [] => (false, [])
  end.

Definition signed (negative : bool) (z : Z) : Z :=
  if negative then (- z)%Z else z.

Definition lower (c : char) : char :=
  if (65 <=? c)%N && (c <=? 90)%N then (c + 32)%N else c.

Definition parse_infinity (s : str) : option num :=
  let '(negative, body) := read_sign s in
  let low := lower <$> body in
  if decide (low = py "inf" \/ low = py "infinity")
  then Some (NInf negative) else None.

(** The number after the sign; [s0] is the whole text. *)
Definition read_number (negative : bool) (s0 s1 : str) : option num :=
  let '(ip, n1, s2) := read_digits 0 0 s1 in
  let '(m, n2, s3, point) :=
    match s2 with
    | c :: t =>
        if (c =? 46)%N
        then let '(m, n2, t') := read_digits ip 0 t in (m, n2, t', true)
        else (ip, O, s2, false)
    | [] => (ip, O, s2, false)
    end in
  if decide (n1 + n2 = 0)%nat then None else
  let exponent : option (bool * str) :=
    match s3 with
    | c :: t =>
        if (c =? 101)%N || (c =? 69)%N then
          let '(_, t1) := read_sign t in
          let '(_, n3, t2) := read_digits 0 0 t1 in
          if decide (n3 = O) then None else Some (true, t2)
        else Some (false, s3)
    | [] => Some (false, s3)
    end in
  match exponent with
  | None => None
  | Some (has_exponent, s4) =>
      match skip_blanks s4 with
      | _ :: _ => None
      | [] =>
          if has_exponent || negb (bool_decide (n1 + n2 <= 17)%nat)
          then long_number s0
          else if point
               then Some (NDec (signed negative m) (- Z.of_nat n2))
               else Some (NInt (signed negative m))
      end
  end.

Definition parse_decimal (s : str) : option num :=
  let '(negative, s1) := read_sign (skip_blanks s) in
  read_number negative s s1.

Definition to_numeric_str (s : str) : option num :=
  match s with
  | [] => Some NNaN
  | _ =>
      match parse_decimal s with
      | Some n => Some n
      | None => parse_infinity s
      end
  end.

(** The message of the [ValueError]: the offending string and its row. *)
Definition unable_to_parse (s : str) (i : nat) : exn :=
  Exn ValueError
    (py "Unable to parse string " ++ QUOTE :: s ++ QUOTE ::
     py " at position " ++ py (pretty i)).

Fixpoint convert_numeric (i : nat) (col : list cell) : result (list num) :=
  match col with
  | [] => Ok []
  | x :: col' =>
      let head :=
        match x with
        | CNum n => Ok n
        | CStr s =>
            match to_numeric_str s with
            | Some n => Ok n
            | None => Raise (unable_to_parse s i)
            end
        end in
      match head with
      | Raise e => Raise e
      | Ok n =>
          match convert_numeric (S i) col' with
          | Raise e => Raise e
          | Ok ns => Ok (n :: ns)
          end
      end
  end.

(** The column is int64 when every value is an integer, float64
    otherwise. *)
Definition is_int (n : num) : bool :=
  match n with NInt _ => true | _ => false end.

Definition as_float (n : num) : num :=
  match n with NInt z => NDec z 0 | _ => n end.

Definition to_numeric (col : list cell) : result (list cell) :=
  match convert_numeric 0 col with
  | Raise e => Raise e
  | Ok ns =>
      Ok (CNum <$> (if forallb is_int ns then ns else as_float <$> ns))
  end.
End Coercion.

(** ** The world of a run: directories, files, and what the run did to its
       surroundings, in order *)

(** A path, as its parts ([Path.parts]). *)
Definition path : Type := list str.

(** One worksheet: its rows of cells. *)
Definition sheet : Type := list (list cell).

Inductive event : Type :=
  | EvGet (url : str)            (* self.driver.get(url) *)
  | EvWrite (file : path) (sh : sheet)   (* the workbook written at file *)
  | EvProgress (msg : str)       (* self.progress.emit(msg) *)
  | EvError (msg : str)          (* self.error.emit(msg) *)
  | EvFinished.                  (* self.finished.emit() *)

Record world : Type := World {
  dirs : gset path;
  files : gmap path sheet;
  trace : list event
}.

(** State and exceptions: a step maps the world to a result and the world
    it leaves, also when it raises. *)
Definition action (A : Type) : Type := world -> result A * world.

Global Instance action_ret : MRet action := fun A a w => (Ok a, w).

Global Instance action_bind : MBind action := fun A B f m w =>
  match m w with
  | (Ok a, w') => f a w'
  | (Raise e, w') => (Raise e, w')
  end.

Definition lift {A} (r : result A) : action A := fun w => (r, w).

Definition emit (ev : event) : action unit := fun w =>
  (Ok tt, World (dirs w) (files w) (trace w ++ [ev])).

(** [p.mkdir(exist_ok=True, parents=True)]: the directory and each of its
    ancestors exist afterwards. *)
Fixpoint ancestors (p : path) : list path :=
  match p with
  | [] => [[]]
  | part :: p' => [] :: (cons part <$> ancestors p')
  end.

Definition mkdir_parents (p : path) : action unit := fun w =>
  (Ok tt, World (dirs w ∪ list_to_set (ancestors p)) (files w) (trace w)).

Definition path_parent (p : path) : path := take (pred (length p)) p.

(** [DataFrame.to_excel(writer, index=..., header=...)]: the rows of the
    sheet. The header row holds the labels, the index column the row
    numbers. *)
Definition nrows (df : dataframe) : nat :=
  match df with
  | [] => O
  | (_, c) :: _ => length c
  end.

(** What the writer puts into the sheet for a cell: with the defaults
    [na_rep=""] and [inf_rep="inf"], NaN gives an empty cell, written
    [CStr []], and an infinity the text [inf] or [-inf]. *)
Definition excel_cell (c : cell) : cell :=
  match c with
  | CNum NNaN => CStr []
  | CNum (NInf negative) => CStr (if negative then py "-inf" else py "inf")
  | _ => c
  end.

Definition frame_row (index : bool) (df : dataframe) (i : nat) : list cell :=
  (if index then [CNum (NInt (Z.of_nat i))] else [])
  ++ ((fun lc : str * list cell => excel_cell (nth i (snd lc) (CNum NNaN)))
        <$> df).

Definition header_row (index : bool) (df : dataframe) : list cell :=
  (if index then [CStr []] else []) ++ ((fun lc => CStr (fst lc)) <$> df).

Definition to_excel (df : dataframe) (index header : bool) : sheet :=
  (if header then [header_row index df] else [])
  ++ (frame_row index df <$> seq 0 (nrows df)).

(** [with pd.ExcelWriter(p) as writer: df.to_excel(writer, ...)]: the
    workbook at [p] is created, or replaced, with the one sheet. *)
Definition write_excel (p : path) (sh : sheet) : action unit := fun w =>
  (Ok tt, World (dirs w) (<[p := sh]> (files w)) (trace w ++ [EvWrite p sh])).

(** ** The worker *)

(** [config.ini]. *)
Record config : Type := Config {
  WEB_URL : str;
  TIMEOUT : Z;
  OUTPUT_PATH : path
}.

(** What the worker's surroundings answer during a run:
    [scraping_active w] is the flag [self.scraping_active] as read at the
    top of the iteration for week [w] ([stop], on the window's thread,
    clears it); [load_page w] is the outcome of lines 58-71 for week [w]
    (navigation, the wait for a table, parsing, [pd.concat]): an exception
    or the frame [all_odds]; [now_year w] is [datetime.now().year] as read
    while week [w] is processed. *)
Record env : Type := Env {
  scraping_active : Z -> bool;
  load_page : Z -> result dataframe;
  now_year : Z -> Z
}.

(** [str(n)] of an [int]. *)
Definition str_of_int (n : Z) : str := py (pretty n).

(** [f"{n:02}"]: zero-padded to at least two characters. *)
Definition fmt02 (n : Z) : str :=
  let s := str_of_int n in
  if (length s <? 2)%nat then ch "0" :: s else s.

Definition MATCHUP : str := py "Matchup".
Definition SPREAD : str := py "Spread".
Definition TOTAL : str := py "Total".
Definition MONEYLINE : str := py "Moneyline".

Section Worker.
Context {U : Runtime} (cfg : config) (E : env).

(** [f"{WEB_URL}-{week}"] *)
Definition week_url (week : Z) : str :=
  WEB_URL cfg ++ py "-" ++ str_of_int week.

(** [Path(f"{OUTPUT_PATH}/{current_year-2000:02}{week:02}.xlsx")] *)
Definition output_name (current_year week : Z) : str :=
  fmt02 (current_year - 2000) ++ fmt02 week ++ py ".xlsx".

Definition output_file (current_year week : Z) : path :=
  OUTPUT_PATH cfg ++ [output_name current_year week].

(** [df[label] = df[label].apply(f)] *)
Definition apply_column (label : str) (f : cell -> result cell)
    (df : dataframe) : result dataframe :=
  match getitem df label with
  | Raise e => Raise e
  | Ok col =>
      match series_apply f col with
      | Raise e => Raise e
      | Ok col' => Ok (set_column label col' df)
      end
  end.

(** [df[label] = pd.to_numeric(df[label])] *)
Definition coerce_column (label : str) (df : dataframe)
    : result dataframe :=
  match getitem df label with
  | Raise e => Raise e
  | Ok col =>
      match to_numeric col with
      | Raise e => Raise e
      | Ok col' => Ok (set_column label col' df)
      end
  end.

(** Lines 72-87: the four cleaning steps. *)
Definition clean_frame (all_odds : dataframe) : result dataframe :=
  df ← apply_column MATCHUP matchup_lambda all_odds;
  df ← apply_column SPREAD spread_lambda df;
  df ← apply_column TOTAL total_lambda df;
  apply_column MONEYLINE moneyline_lambda df.

(** Lines 88-90: the three coercions. *)
Definition coerce_frame (df : dataframe) : result dataframe :=
  df ← coerce_column SPREAD df;
  df ← coerce_column TOTAL df;
  coerce_column MONEYLINE df.

(** Lines 58-90: the frame of the week, ready for export, or the first
    exception on the way. *)
Definition week_frame (week : Z) : result dataframe :=
  all_odds ← load_page E week;
  all_odds ← clean_frame all_odds;
  coerce_frame all_odds.

(** Lines 92-96: the export. *)
Definition export_week (all_odds : dataframe) (week : Z) : action unit :=
  let current_year := now_year E week in
  let file := output_file current_year week in
  _ ← mkdir_parents (path_parent file);
  write_excel file (to_excel all_odds false true).

Definition week_done (week : Z) : str :=
  py "Week " ++ str_of_int week ++ py " data scraped successfully.".

(** Lines 58-97: the body of the loop after the flag check. *)
Definition process_week (week : Z) : action unit :=
  _ ← emit (EvGet (week_url week));
  all_odds ← lift (week_frame week);
  _ ← export_week all_odds week;
  emit (EvProgress (week_done week)).

Definition STOPPED : str := py "Scraping stopped by user.".

(** Lines 54-97: the [for] loop over the weeks still to do; [break]
    ends it without an exception. *)
Fixpoint loop (weeks : list Z) : action unit :=
  match weeks with
  | [] => mret tt
  | week :: rest =>
      if negb (scraping_active E week) then emit (EvProgress STOPPED)
      else _ ← process_week week; loop rest
  end.

(** [range(a, b)] *)
Definition py_range (a b : Z) : list Z := seqZ a (b - a).

(** How [run] ends: [Completed] when the [try] body ends without an
    exception (the loop ran out, or hit [break]); [Failed e] when the
    [except] clause handled [e]; [Escaped e] when [e] leaves [run]. *)
Inductive outcome : Type :=
  | Completed
  | Failed (e : exn)
  | Escaped (e : exn).

(** [except (ValueError, WebDriverException)] *)
Definition handled (e : exn) : bool :=
  is_ValueError (exn_cls e) || is_WebDriverException (exn_cls e).

Definition error_message (e : exn) : str :=
  py "An error occurred: " ++ exn_str e.

(** [ScraperWorker.run], lines 51-101. *)
Definition run (start_week end_week : Z) (w : world) : outcome * world :=
  let '(r, w1) := loop (py_range start_week (end_week + 1)) w in
  let '(o, w2) :=
    match r with
    | Ok _ => (Completed, w1)
    | Raise e =>
        if handled e
        then (Failed e, snd (emit (EvError (error_message e)) w1))
        else (Escaped e, w1)
    end in
  (o, snd (emit EvFinished w2)).
End Worker.

(** ** The window: input validation *)

Section Window.
Context {U : Runtime}.

(** The white space that [int] skips before the number. *)
Fixpoint int_lstrip (s : str) : str :=
  match s with
  | c :: s' => if int_space c then int_lstrip s' else s
  | [] => []
  end.

(** The text without the white space that [int] skips before and after
    the number. *)
Definition int_strip (s : str) : str :=
  reverse (int_lstrip (reverse (int_lstrip s))).

(** The digits of an [int] literal: decimal digits, single underscores
    allowed between two digits. *)
Fixpoint int_digits (acc : Z) (after_digit : bool) (s : str) : option Z :=
  match s with
  | [] => if after_digit then Some acc else None
  | c :: s' =>
      if (c =? 95)%N then
        if after_digit then int_digits acc false s' else None
      else
        match digit_value c with
        | Some d => int_digits (10 * acc + Z.of_N d) true s'
        | None => None
        end
  end.

(** [int] refuses a literal of more than 640 digits when a limit is set
    and the literal has more digits than the limit. *)
Definition over_digit_limit (digits : nat) : bool :=
  (640 <? digits)%nat && (0 <? int_max_str_digits)%nat
  && (int_max_str_digits <? digits)%nat.

(** [int(s)] for a [str]: [None] stands for the [ValueError]. *)
Definition py_int (s : str) : option Z :=
  let '(negative, body) := read_sign (int_strip s) in
  match int_digits 0 false body with
  | Some v =>
      if over_digit_limit
           (length (filter (fun c => c <> 95%N) body))
      then None else Some (signed negative v)
  | None => None
  end.

Record window : Type := Window {
  start_week_edit : str;
  end_week_edit : str;
  status_text : str;
  start_button_enabled : bool;
  stop_button_enabled : bool;
  worker : option (Z * Z)       (* the weeks of the started worker *)
}.

Definition set_status (msg : str) (g : window) : window :=
  Window (start_week_edit g) (end_week_edit g) msg
         (start_button_enabled g) (stop_button_enabled g) (worker g).

Definition set_start_button (b : bool) (g : window) : window :=
  Window (start_week_edit g) (end_week_edit g) (status_text g)
         b (stop_button_enabled g) (worker g).

(** The inner function [validate_week]: the error text, if any. *)
Definition validate_week (week_str label : str) : option str :=
  match py_int week_str with
  | Some week =>
      if (week <? 1)%Z || (18 <? week)%Z
      then Some (label ++ py " must be between 1 and 18.")
      else None
  | None => Some (label ++ py " must be a number between 1 and 18.")
  end.

Definition END_BEFORE_START : str :=
  py "End week must be greater than or equal to start week.".

(** [OddsScraperWindow.validate_inputs], lines 214-240. *)
Definition validate_inputs (g : window) : bool * window :=
  match validate_week (start_week_edit g) (py "Start week") with
  | Some start_week_error => (false, set_status start_week_error g)
  | None =>
      match validate_week (end_week_edit g) (py "End week") with
      | Some end_week_error => (false, set_status end_week_error g)
      | None =>
          match py_int (end_week_edit g), py_int (start_week_edit g) with
          | Some e, Some s =>
              if (e <? s)%Z then (false, set_status END_BEFORE_START g)
              else (true, g)
          | _, _ => (true, g)   (* unreachable: both texts were parsed *)
          end
      end
  end.

(** [OddsScraperWindow.start_scraping], lines 163-187; [driver] is the
    outcome of [get_webdriver]. An exception of another class than the
    two caught ones leaves the method. *)
Definition start_scraping (driver : result unit) (g : window)
    : result window :=
  let g := set_status (py "Running...") (set_start_button false g) in
  let '(valid, g) := validate_inputs g in
  if negb valid then Ok (set_start_button true g)
  else
    let failed :=
      set_start_button true
        (set_status (py "An error occurred. Check logs for details.") g) in
    match driver with
    | Raise e =>
        if is_ValueError (exn_cls e) || is_WebDriverException (exn_cls e)
        then Ok failed else Raise e
    | Ok _ =>
        match py_int (start_week_edit g), py_int (end_week_edit g) with
        | Some s, Some e =>
            Ok (Window (start_week_edit g) (end_week_edit g)
                       (status_text g) (start_button_enabled g) true
                       (Some (s, e)))
        | _, _ => Ok failed
        end
    end.
End Window.


(** ** The window: slots and clicks *)

(** [OddsScraperWindow.on_finished], lines 197-202. *)
Definition on_finished (g : window) : window :=
  Window (start_week_edit g) (end_week_edit g) (py "Done!")
         true false (worker g).

(** [OddsScraperWindow.on_progress], lines 204-207. *)
Definition on_progress (message : str) (g : window) : window :=
  set_status message g.

(** [OddsScraperWindow.on_error], lines 209-212. *)
Definition on_error (message : str) (g : window) : window :=
  set_status message g.

(** [OddsScraperWindow.stop_scraping], lines 189-195: whether
    [worker.stop()] was called, and the window afterwards. *)
Definition stop_scraping (g : window) : bool * window :=
  match worker g with
  | Some _ =>
      (true,
       Window (start_week_edit g) (end_week_edit g) (py "Stopping...")
              (start_button_enabled g) false (worker g))
  | None => (false, g)
  end.

(** The connections made in [start_scraping] (lines 179-181): each signal
    of the worker runs its slot; the navigations and file writes of the
    trace are no signals. *)
Definition slot (ev : event) (g : window) : window :=
  match ev with
  | EvProgress message => on_progress message g
  | EvError message => on_error message g
  | EvFinished => on_finished g
  | _ => g
  end.

(** The signals of a trace, delivered in the order of their emission. *)
Definition deliver (evs : list event) (g : window) : window :=
  foldl (fun g ev => slot ev g) g evs.

(** The window as [__init__] and [create_interface] leave it
    (lines 111-161). *)
Definition initial_window : window :=
  Window [] [] (py "Ready") true false None.

(** What can happen to the window: the user edits a field, clicks a
    button, or a signal of the worker arrives. *)
Inductive gui_event : Type :=
  | Type_start_week (text : str)
  | Type_end_week (text : str)
  | Click_start (driver : result unit)
  | Click_stop
  | Signal (ev : event).

Section Gui.
Context {U : Runtime}.

Definition gui_step (a : gui_event) (g : window) : result window :=
  match a with
  | Type_start_week text =>
      Ok (Window text (end_week_edit g) (status_text g)
                 (start_button_enabled g) (stop_button_enabled g)
                 (worker g))
  | Type_end_week text =>
      Ok (Window (start_week_edit g) text (status_text g)
                 (start_button_enabled g) (stop_button_enabled g)
                 (worker g))
  | Click_start driver =>
      if start_button_enabled g then start_scraping driver g else Ok g
  | Click_stop =>
      if stop_button_enabled g then Ok (snd (stop_scraping g)) else Ok g
  | Signal ev => Ok (slot ev g)
  end.

Fixpoint gui_steps (l : list gui_event) (g : window) : result window :=
  match l with
  | [] => Ok g
  | a :: l' =>
      match gui_step a g with
      | Ok g' => gui_steps l' g'
      | Raise e => Raise e
      end
  end.
End Gui.

(** ** The browser of the thread

    [LOCAL_THREAD.driver] caches the browser. Browsers are numbered in the
    order of their launch; [running] is the set of the browsers that were
    launched and not quit. *)

Record browsers : Type := Browsers {
  cached : option nat;      (* [getattr(LOCAL_THREAD, "driver", None)] *)
  running : gset nat;
  launched : nat
}.

(** What lines 255-257 do when there is no cached browser:
    [webdriver.Firefox] raises and no browser runs, or the browser runs
    and one of the two timeout settings raises, or all three calls
    return. *)
Inductive launch : Type :=
  | Launch_fails (e : exn)
  | Configure_fails (e : exn)
  | Launched.

(** [OddsScraperWindow.get_webdriver], lines 242-264. *)
Definition get_webdriver (l : launch) (b : browsers)
    : result nat * browsers :=
  match cached b with
  | Some driver => (Ok driver, b)
  | None =>
      let driver := launched b in
      match l with
      | Launch_fails e => (Raise e, b)
      | Configure_fails e =>
          (Raise e, Browsers None ({[driver]} ∪ running b) (S driver))
      | Launched =>
          (Ok driver,
           Browsers (Some driver) ({[driver]} ∪ running b) (S driver))
      end
  end.

(** [OddsScraperWindow.stop_webdriver], lines 266-270. *)
Definition stop_webdriver (driver : option nat) (b : browsers) : browsers :=
  match driver with
  | Some d => Browsers None (running b ∖ {[d]}) (launched b)
  | None => b
  end.

(** The handler that [main] connects to [aboutToQuit], line 278. *)
Definition about_to_quit (b : browsers) : browsers :=
  stop_webdriver (cached b) b.

(** No browser was launched yet. *)
Definition no_browser : browsers := Browsers None ∅ 0.

(** The calls of a thread, in order. *)
Inductive browser_call : Type :=
  | Get_webdriver (l : launch)
  | About_to_quit.

Definition browser_step (c : browser_call) (b : browsers) : browsers :=
  match c with
  | Get_webdriver l => snd (get_webdriver l b)
  | About_to_quit => about_to_quit b
  end.

Definition browser_steps (cs : list browser_call) (b : browsers) : browsers :=
  foldl (fun b c => browser_step c b) b cs.

(** * The vocabulary of the statements *)

Section Vocabulary.
Context {U : Runtime}.

Definition within (n : nat) (hi : option nat) : Prop :=
  match hi with Some h => (n <= h)%nat | None => True end.

(** [matches r pos u]: the text [u], found at index [pos], belongs to the
    language of [r]. *)
Fixpoint matches (r : regex) (pos : nat) (u : str) : Prop :=
  match r with
  | RBol => pos = O /\ u = []
  | RSet cs => exists c, u = [c] /\ in_cset cs c = true
  | RRep cs lo hi =>
      Forall (fun c => in_cset cs c = true) u
      /\ (lo <= length u)%nat /\ within (length u) hi
  | RSeq r1 r2 =>
      exists u1 u2, u = u1 ++ u2 /\ matches r1 pos u1
                    /\ matches r2 (pos + length u1) u2
  | ROpt r' => u = [] \/ matches r' pos u
  end.

(** How many characters a greedy repetition takes when nothing makes it
    give any back. *)
Fixpoint greedy_len (cs : cset) (hi : option nat) (s : str) : nat :=
  match s with
  | c :: s' =>
      if in_cset cs c && hi_allows hi
      then S (greedy_len cs (hi_pred hi) s') else O
  | [] => O
  end.

Definition all_in (f : char -> bool) (s : str) : Prop :=
  Forall (fun c => f c = true) s.

(** The text [H:MM] followed by [AM] or [PM]. *)
Definition clock (h m : str) (ap : char) : str :=
  h ++ ch ":" :: m ++ [ap; ch "M"].

Definition time_of_day (h m : str) (ap : char) : Prop :=
  (1 <= length h <= 2)%nat /\ all_in is_digit h
  /\ length m = 2%nat /\ all_in is_digit m
  /\ (ap = ch "A" \/ ap = ch "P").

(** A time prefix: a time of day, a zone of two or three characters of
    the class [zone], then whitespace. *)
Definition time_prefix (zone : char -> bool) (p : str) : Prop :=
  exists h m ap z ws,
    p = clock h m ap ++ z ++ ws /\ time_of_day h m ap
    /\ (2 <= length z <= 3)%nat /\ all_in zone z /\ all_in is_space ws.

Definition time_prefixed (zone : char -> bool) (x : str) : Prop :=
  exists p rest, x = p ++ rest /\ time_prefix zone p.

(** A letter: a word character that is neither a digit nor the
    underscore. *)
Definition is_letter (c : char) : bool :=
  is_word c && negb (is_digit c) && negb (c =? 95)%N.

(** The text holds a decimal digit. *)
Definition has_digit (s : str) : Prop :=
  Exists (fun c => is_digit c = true) s.
End Vocabulary.

(** [MATCHUP_RE] up to the [M]. *)
Definition MATCHUP_HEAD : regex :=
  RSeq RBol
  (RSeq (RRep CDigit 1 (Some 2))
  (RSeq (RSet (CLit (ch ":")))
  (RSeq (RRep CDigit 2 (Some 2))
  (RSeq (RSet (COneOf [ch "A"; ch "P"]))
        (RSet (CLit (ch "M"))))))).

Definition is_error (ev : event) : bool :=
  match ev with EvError _ => true | _ => false end.

Definition is_finished (ev : event) : bool :=
  match ev with EvFinished => true | _ => false end.

(** The two decimal digits of a number below 100. *)
Definition two_digits (n : Z) : str :=
  [Z.to_N (48 + n / 10); Z.to_N (48 + n mod 10)].

Section RunVocabulary.
Context {U : Runtime} (cfg : config) (E : env).

(** What a week that goes through leaves in the trace. *)
Definition week_events (week : Z) (df : dataframe) : list event :=
  [EvGet (week_url cfg week);
   EvWrite (output_file cfg (now_year E week) week) (to_excel df false true);
   EvProgress (week_done week)].

(** The world after such a week. *)
Definition exported (week : Z) (df : dataframe) (w : world) : world :=
  World (dirs w ∪ list_to_set (ancestors (OUTPUT_PATH cfg)))
        (<[output_file cfg (now_year E week) week := to_excel df false true]>
           (files w))
        (trace w ++ week_events week df).

Definition frame_of (week : Z) : dataframe :=
  match week_frame E week with
  | Ok df => df
  | Raise _ => []
  end.

(** The trace of a run of weeks that all go through. *)
Definition events_of (weeks : list Z) : list event :=
  mjoin ((fun v => week_events v (frame_of v)) <$> weeks).

Definition after_weeks (weeks : list Z) (w : world) : world :=
  foldl (fun w week => exported week (frame_of week) w) w weeks.

(** The iteration for the week is entered and goes through. *)
Definition week_ok (week : Z) : Prop :=
  scraping_active E week = true /\ exists df, week_frame E week = Ok df.

(** The week's processing fails as a whole with a [ValueError]: from
    [w], nothing is written and the exception propagates. *)
Definition week_fails (week : Z) (w : world) : Prop :=
  exists e,
    is_ValueError (exn_cls e) = true
    /\ week_frame E week = Raise e
    /\ process_week cfg E week w
       = (Raise e,
          World (dirs w) (files w) (trace w ++ [EvGet (week_url cfg week)])).
End RunVocabulary.

(** ** The ways out of the loop *)

Section EndingVocabulary.
Context {U : Runtime} (cfg : config) (E : env).

(** How the loop leaves the weeks [rest] it has not gone through: the
    result of the [try] body and what it adds to the trace after the
    weeks that went through. *)
Definition loop_ending (rest : list Z) (r : result unit)
    (evs : list event) : Prop :=
  match rest with
  | [] => r = Ok tt /\ evs = []
  | week :: _ =>
      if scraping_active E week then
        exists e, week_frame E week = Raise e /\ r = Raise e
                  /\ evs = [EvGet (week_url cfg week)]
      else r = Ok tt /\ evs = [EvProgress STOPPED]
  end.

(** What [run] adds after the loop: the error signal when the handler
    catches the exception, then the finished signal. *)
Definition run_ending (r : result unit) : outcome * list event :=
  match r with
  | Ok _ => (Completed, [EvFinished])
  | Raise e =>
      if handled e
      then (Failed e, [EvError (error_message e); EvFinished])
      else (Escaped e, [EvFinished])
  end.
End EndingVocabulary.

(** ** Numbers in a cell *)

Section NumberVocabulary.
Context {U : Runtime}.

(** The class [[-+]]. *)
Definition is_sign (c : char) : bool := (c =? 45)%N || (c =? 43)%N.

(** The length of the fraction [\.\d+] at the head of [t], 0 without
    one. *)
Definition fraction_len (t : str) : nat :=
  match t with
  | c :: t' =>
      if (c =? 46)%N && bool_decide (1 <= greedy_len CDigit None t')%nat
      then S (greedy_len CDigit None t') else O
  | [] => O
  end.

(** The length of the number [\d+(\.\d+)?] at the head of [s]. *)
Definition number_len (s : str) : option nat :=
  let d := greedy_len CDigit None s in
  if decide (1 <= d)%nat then Some (d + fraction_len (drop d s))%nat
  else None.

(** The length of the number [[-+]?\d+(\.\d+)?] at the head of [s]. *)
Definition signed_number_len (s : str) : option nat :=
  match s with
  | c :: s' =>
      if is_sign c then
        match number_len s' with
        | Some n => Some (S n)
        | None => number_len s
        end
      else number_len s
  | [] => None
  end.

(** A decimal numeral: digits, then possibly a point and digits. *)
Definition numeral (g : str) : Prop :=
  exists d fr,
    g = d ++ fr /\ d <> [] /\ all_in is_digit d
    /\ (fr = [] \/ exists d2, fr = 46%N :: d2 /\ d2 <> []
                              /\ all_in is_digit d2).

(** The text is ASCII. *)
Definition is_ascii (s : str) : Prop := Forall (fun c => (c < 128)%N) s.

(** The number is neither an infinity nor NaN. *)
Definition finite (n : num) : Prop := exists q, num_value n = Some q.

(** An ASCII cell of at most 17 characters with a digit. *)
Definition short_cell (x : str) : Prop :=
  is_ascii x /\ has_digit x /\ (length x <= 17)%nat.

(** An ASCII text of at most 17 characters that is a number
    [[-+]?\d+(\.\d+)?] as a whole. *)
Definition short_number (y : str) : Prop :=
  is_ascii y /\ (length y <= 17)%nat
  /\ signed_number_len y = Some (length y).
End NumberVocabulary.

(** ** The window and the browser *)

Section GuiVocabulary.
Context {U : Runtime}.

(** A worker has a valid range: weeks between 1 and 18, in order. *)
Definition valid_range (r : Z * Z) : Prop :=
  (1 <= r.1 /\ r.1 <= r.2 /\ r.2 <= 18)%Z.

(** The two fields read as the weeks of a valid range. *)
Definition valid_fields (g : window) (r : Z * Z) : Prop :=
  py_int (start_week_edit g) = Some r.1
  /\ py_int (end_week_edit g) = Some r.2
  /\ valid_range r.

(** What every reachable window satisfies. *)
Definition gui_inv (g : window) : Prop :=
  (forall r, worker g = Some r -> valid_range r)
  /\ (stop_button_enabled g = true -> is_Some (worker g)).
End GuiVocabulary.

(** The call is no launch whose timeout settings fail. *)
Definition configured (c : browser_call) : Prop :=
  match c with
  | Get_webdriver (Configure_fails _) => False
  | _ => True
  end.

(** The cached browser, as a set. *)
Definition cached_set (b : browsers) : gset nat :=
  match cached b with Some d => {[d]} | None => ∅ end.

(** What every reachable state of the browsers satisfies. *)
Definition browsers_inv (b : browsers) : Prop :=
  (forall d, d ∈ running b -> d < launched b)
  /\ cached_set b ⊆ running b.

(** ** Pages and surroundings for the examples *)

(** One row as the page shows it. *)
Definition sample_row (matchup spread total moneyline : str) : dataframe :=
  [(MATCHUP, [CStr matchup]); (SPREAD, [CStr spread]);
   (TOTAL, [CStr total]); (MONEYLINE, [CStr moneyline])].

Definition demo_config : config :=
  Config (py "https://odds.example/nfl-odds-week") 10 [py "output"].

Definition empty_world : world := World ∅ ∅ [].

Definition demo_page (spread : str) : dataframe :=
  [(MATCHUP, [CStr (py "1:00PMEST Jets vs Bills");
              CStr (py "4:25PMEST Rams vs Colts")]);
   (SPREAD, [CStr (py "-3.5 (-110)"); CStr spread]);
   (TOTAL, [CStr (py "47.5u"); CStr (py "o44 -110")]);
   (MONEYLINE, [CStr (MINUS_SIGN :: py "150"); CStr (py "+130")])].

(** Every week shows [demo_page spread]; nobody presses Stop. *)
Definition page_env (spread : str) : env :=
  Env (fun _ => true) (fun _ => Ok (demo_page spread)) (fun _ => 2025%Z).



(** Stop is pressed while week 2 is processed. *)
Definition cancel_env : env :=
  Env (fun week => (week <? 3)%Z)
      (fun _ => Ok (demo_page (py "+7 (-105)")))
      (fun _ => 2025%Z).

(** The page of every week has no [Spread] column. *)
Definition no_spread_env : env :=
  Env (fun _ => true)
      (fun _ => Ok [(MATCHUP, [CStr (py "1:00PMEST Jets vs Bills")]);
                    (TOTAL, [CStr (py "47.5u")]);
                    (MONEYLINE, [CStr (py "+130")])])
      (fun _ => 2025%Z).

(** * Properties *)

(** ** The definitions on the examples of the specification *)

Example clean_matchup_ex :
  @clean_matchup basic_latin (py "7:00PMEST Team A vs Team B") = py "Team A vs Team B".
Proof. vm_compute. reflexivity. Qed.

Example clean_spread_ex :
  @clean_spread basic_latin (py "-3.5 (-110)") = py "-3.5".
Proof. vm_compute. reflexivity. Qed.

Example clean_total_ex :
  @clean_total basic_latin (py "47.5u") = py "47.5".
Proof. vm_compute. reflexivity. Qed.

Example clean_moneyline_ex :
  @clean_moneyline (MINUS_SIGN :: py "150") = py "-150".
Proof. vm_compute. reflexivity. Qed.

Example to_numeric_spread_ex :
  @to_numeric basic_latin [CStr (py "-3.5")] = Ok [CNum (NDec (-35) (-1))].
Proof. vm_compute. reflexivity. Qed.

Example to_numeric_moneyline_ex :
  @to_numeric basic_latin [CStr (py "-150"); CStr (py "+130")]
  = Ok [CNum (NInt (-150)); CNum (NInt 130)].
Proof. vm_compute. reflexivity. Qed.

Example to_numeric_pick_ex :
  @to_numeric basic_latin [CStr (py "-3.5"); CStr (py "PK")]
  = Raise (unable_to_parse (py "PK") 1).
Proof. vm_compute. reflexivity. Qed.

Example py_int_ex : @py_int basic_latin (py " +1_8 ") = Some 18%Z.
Proof. vm_compute. reflexivity. Qed.

Example py_int_bad_ex : @py_int basic_latin (py "1__8") = None.
Proof. vm_compute. reflexivity. Qed.

(** ** The matcher against the language of a pattern *)

Section EngineFacts.
Context {U : Runtime}.

Lemma rep_sound {R} cs (k : nat -> str -> option R) s :
  forall lo hi pos x,
    rep cs lo hi pos s k = Some x ->
    exists u v, s = u ++ v /\ matches (RRep cs lo hi) pos u
                /\ k (pos + length u)%nat v = Some x.
Proof.
  induction s as [|c s IH]; intros lo hi pos x; simpl.
  - destruct (decide (lo = O)) as [->|]; [|discriminate].
    intros Hk. exists [], []. rewrite Nat.add_0_r.
    repeat split; auto. destruct hi; simpl; lia.
  - assert (Hstop : (if decide (lo = O) then k pos (c :: s) else None) = Some x ->
      exists u v, c :: s = u ++ v /\ matches (RRep cs lo hi) pos u
                  /\ k (pos + length u)%nat v = Some x).
    { destruct (decide (lo = O)) as [->|]; [|discriminate].
      intros Hk. exists [], (c :: s). rewrite Nat.add_0_r.
      repeat split; auto. destruct hi; simpl; lia. }
    destruct (in_cset cs c && hi_allows hi) eqn:Hc; [|exact Hstop].
    apply andb_true_iff in Hc as [Hc Hhi].
    destruct (rep cs (pred lo) (hi_pred hi) (S pos) s k) as [y|] eqn:Hrec;
      [|exact Hstop].
    intros [= ->].
    destruct (IH _ _ _ _ Hrec) as (u & v & -> & (Hall & Hlo & Hup) & Hk).
    exists (c :: u), v. simpl.
    rewrite Nat.add_succ_r. repeat split; auto.
    + lia.
    + destruct hi as [[|h]|]; simpl in *; try discriminate; lia.
Qed.

Lemma exec_sound {R} r :
  forall (k : nat -> str -> option R) pos s x,
    exec r pos s k = Some x ->
    exists u v, s = u ++ v /\ matches r pos u
                /\ k (pos + length u)%nat v = Some x.
Proof.
  induction r as [|cs|cs lo hi|r1 IH1 r2 IH2|r IH]; intros k pos s x; simpl.
  - destruct (decide (pos = O)) as [->|]; [|discriminate].
    intros Hk. exists [], s. simpl. auto.
  - destruct s as [|c s]; [discriminate|].
    destruct (in_cset cs c) eqn:Hc; [|discriminate].
    intros Hk. exists [c], s. simpl. rewrite Nat.add_1_r. eauto 6.
  - apply rep_sound.
  - intros H. apply IH1 in H as (u1 & v1 & -> & H1 & H).
    apply IH2 in H as (u2 & v & -> & H2 & H).
    exists (u1 ++ u2), v. rewrite <- app_assoc, length_app, Nat.add_assoc.
    eauto 8.
  - destruct (exec r pos s k) as [y|] eqn:Hr.
    + intros [= ->]. apply IH in Hr as (u & v & -> & Hm & Hk). eauto 7.
    + intros Hk. exists [], s. rewrite Nat.add_0_r. simpl. auto.
Qed.

Lemma rep_complete {R} cs (k : nat -> str -> option R) u v :
  forall lo hi pos,
    matches (RRep cs lo hi) pos u ->
    is_Some (k (pos + length u)%nat v) ->
    is_Some (rep cs lo hi pos (u ++ v) k).
Proof.
  induction u as [|c u IH]; intros lo hi pos (Hall & Hlo & Hup) Hk.
  - simpl in *. rewrite Nat.add_0_r in Hk.
    assert (lo = O) as -> by lia.
    destruct v as [|c v]; simpl; [done|].
    destruct (in_cset cs c && hi_allows hi); [|done].
    destruct (rep cs _ _ _ v k); [eauto|done].
  - simpl. apply Forall_cons in Hall as [Hc Hall]. rewrite Hc. simpl in *.
    assert (hi_allows hi = true) as ->.
    { destruct hi as [[|h]|]; simpl in *; auto; lia. }
    simpl. rewrite Nat.add_succ_r in Hk.
    destruct (IH (pred lo) (hi_pred hi) (S pos)) as [y ->]; [|exact Hk|eauto].
    repeat split; auto; [lia|].
    destruct hi as [h|]; simpl in *; auto; lia.
Qed.

Lemma exec_complete {R} r :
  forall (k : nat -> str -> option R) pos u v,
    matches r pos u ->
    is_Some (k (pos + length u)%nat v) ->
    is_Some (exec r pos (u ++ v) k).
Proof.
  induction r as [|cs|cs lo hi|r1 IH1 r2 IH2|r IH]; intros k pos u v; simpl.
  - intros [-> ->] Hk. simpl in *. done.
  - intros (c & -> & Hc) Hk. simpl in *. rewrite Hc.
    by rewrite Nat.add_1_r in Hk.
  - apply rep_complete.
  - intros (u1 & u2 & -> & H1 & H2) Hk. rewrite <- app_assoc.
    apply IH1; [done|]. apply IH2; [done|].
    by rewrite length_app, Nat.add_assoc in Hk.
  - intros [->|Hm] Hk.
    + simpl in *. rewrite Nat.add_0_r in Hk.
      destruct (exec r pos v k); [eauto|done].
    + destruct (IH k pos u v Hm Hk) as [y ->]. eauto.
Qed.
End EngineFacts.

Section GreedyFacts.
Context {U : Runtime}.

Lemma rep_total {R} cs (k : nat -> str -> option R) :
  (forall p s', is_Some (k p s')) ->
  forall s lo hi pos,
    rep cs lo hi pos s k =
    if decide (lo <= greedy_len cs hi s)%nat
    then k (pos + greedy_len cs hi s)%nat (drop (greedy_len cs hi s) s)
    else None.
Proof.
  intros Hk s. induction s as [|c s IH]; intros lo hi pos; simpl.
  - rewrite Nat.add_0_r. repeat case_decide; auto; lia.
  - destruct (in_cset cs c && hi_allows hi); simpl.
    + rewrite IH, Nat.add_succ_r, <- Nat.add_succ_l.
      destruct (decide (pred lo <= _)%nat) as [Hle|Hgt].
      * destruct (Hk (S pos + greedy_len cs (hi_pred hi) s)%nat
                     (drop (greedy_len cs (hi_pred hi) s) s)) as [y ->].
        case_decide; [done|lia].
      * repeat case_decide; auto; lia.
    + rewrite Nat.add_0_r. repeat case_decide; auto; lia.
Qed.

Lemma greedy_len_Forall cs hi s :
  Forall (fun c => in_cset cs c = true) (take (greedy_len cs hi s) s).
Proof.
  revert hi. induction s as [|c s IH]; intros hi; simpl; [constructor|].
  destruct (in_cset cs c && hi_allows hi) eqn:Hc; simpl; [|constructor].
  apply andb_true_iff in Hc as [Hc _]. constructor; auto.
Qed.

Lemma greedy_len_within cs hi s : within (greedy_len cs hi s) hi.
Proof.
  revert hi. induction s as [|c s IH]; intros hi; simpl.
  - destruct hi; simpl; lia.
  - destruct (in_cset cs c && hi_allows hi) eqn:Hc.
    + apply andb_true_iff in Hc as [_ Hc]. specialize (IH (hi_pred hi)).
      destruct hi as [[|h]|]; simpl in *; try discriminate; lia.
    + destruct hi; simpl; lia.
Qed.

(** Greedy: the repetition stops at its upper bound or before a
    character outside the set. *)
Lemma greedy_len_maximal cs hi s c :
  head (drop (greedy_len cs hi s) s) = Some c ->
  in_cset cs c = false \/ hi = Some (greedy_len cs hi s).
Proof.
  revert hi. induction s as [|a s IH]; intros hi; simpl; [discriminate|].
  destruct (in_cset cs a && hi_allows hi) eqn:Hc; simpl.
  - intros H. apply IH in H as [H|H]; [by left|right].
    apply andb_true_iff in Hc as [_ Hc].
    destruct hi as [[|h]|]; simpl in *; try discriminate. congruence.
  - intros [= ->]. apply andb_false_iff in Hc as [Hc|Hc]; [by left|right].
    by destruct hi as [[|h]|].
Qed.
End GreedyFacts.

Section AnchoredSub.
Context {U : Runtime}.

(** A pattern that begins with [^] matches nowhere but at index 0. *)
Lemma match_at_anchored r pos b s :
  match_at (RSeq RBol r) (S pos) b s = None.
Proof. reflexivity. Qed.

Lemma sub_from_anchored r repl s :
  forall pos skip, sub_from (RSeq RBol r) repl (S pos) skip s = drop skip s.
Proof.
  induction s as [|c s IH]; intros pos [|n]; simpl; auto.
  by rewrite IH.
Qed.

(** So [re.sub] with such a pattern replaces at most the one match at
    the start of the subject. *)
Lemma re_sub_anchored r repl s :
  re_sub (RSeq RBol r) repl s =
  match match_at (RSeq RBol r) 0 false s with
  | Some (S n) => repl ++ drop (S n) s
  | Some O =>
      repl ++
      match match_at (RSeq RBol r) 0 true s with
      | Some (S n) => repl ++ drop (S n) s
      | _ => s
      end
  | None => s
  end.
Proof.
  unfold re_sub. destruct s as [|c s].
  - simpl sub_from.
    destruct (match_at _ 0 false []) as [[|n]|]; auto;
      destruct (match_at _ 0 true []) as [[|n']|]; auto.
  - cbn [sub_from].
    destruct (match_at _ 0 false (c :: s)) as [[|n]|];
      [destruct (match_at _ 0 true (c :: s)) as [[|n']|]|..];
      by rewrite ?sub_from_anchored.
Qed.
End AnchoredSub.

Section MatchupFacts.
Context {U : Runtime}.

Lemma matches_head u :
  matches MATCHUP_HEAD 0 u <->
  exists h m ap, u = clock h m ap /\ time_of_day h m ap.
Proof.
  unfold clock, time_of_day, all_in. split.
  - simpl. intros (u1 & u2 & -> & [_ ->] & h & u3 & -> & (Hh & Hh1 & Hh2)
      & c1 & u4 & -> & (c & -> & Hc%N.eqb_eq) & m & u5 & -> & (Hm & Hm1 & Hm2)
      & a & u6 & -> & (ap & -> & Hap) & (c2 & -> & Hc2%N.eqb_eq)).
    subst. exists h, m, ap. simpl. repeat split; auto; try lia.
    apply orb_true_iff in Hap as [Hap%N.eqb_eq|Hap]; [by left|].
    apply orb_true_iff in Hap as [Hap%N.eqb_eq|Hap]; [by right|done].
  - intros (h & m & ap & -> & (Hh1 & Hh2) & Hh & Hm1 & Hm & Hap). simpl.
    exists [], (h ++ ch ":" :: m ++ [ap; ch "M"]). repeat split; auto.
    exists h, (ch ":" :: m ++ [ap; ch "M"]). repeat split; auto.
    exists [ch ":"], (m ++ [ap; ch "M"]). repeat split; eauto.
    exists m, [ap; ch "M"]. repeat split; auto; try lia.
    exists [ap], [ch "M"]. repeat split; eauto.
    exists ap. split; auto. destruct Hap as [-> | ->]; reflexivity.
Qed.

Lemma matches_matchup p : time_prefix is_word p -> matches MATCHUP_RE 0 p.
Proof.
  intros (h & m & ap & z & ws & -> & Htod & Hz & Hzw & Hws).
  destruct Htod as ((Hh1 & Hh2) & Hh & Hm1 & Hm & Hap).
  unfold clock. rewrite <- !app_assoc. simpl. rewrite <- !app_assoc. simpl.
  exists [], (h ++ ch ":" :: m ++ ap :: ch "M" :: z ++ ws).
  split; [done|]. split; [done|].
  exists h, (ch ":" :: m ++ ap :: ch "M" :: z ++ ws).
  split; [done|]. split; [repeat split; auto|].
  exists [ch ":"], (m ++ ap :: ch "M" :: z ++ ws).
  split; [done|]. split; [eauto|].
  exists m, (ap :: ch "M" :: z ++ ws).
  split; [done|]. split; [repeat split; auto; lia|].
  exists [ap], (ch "M" :: z ++ ws).
  split; [done|]. split; [exists ap; by destruct Hap as [-> | ->]|].
  exists [ch "M"], (z ++ ws). split; [done|]. split; [eauto|].
  exists z, ws. repeat split; auto; lia.
Qed.

(** The match at the start of [x], when there is one: the clock, then
    as many word characters as the zone takes (three at most), then all
    the whitespace that follows. *)
Lemma match_at_matchup x n :
  match_at MATCHUP_RE 0 false x = Some n ->
  exists h m ap v,
    x = clock h m ap ++ v /\ time_of_day h m ap
    /\ (2 <= greedy_len CWord (Some 3) v)%nat
    /\ n = (length (clock h m ap) + greedy_len CWord (Some 3) v
            + greedy_len CSpace None (drop (greedy_len CWord (Some 3) v) v))%nat.
Proof.
  unfold match_at.
  set (kf := fun (pos' : nat) (_ : str) =>
               if false && bool_decide (pos' = 0%nat) then None
               else Some (pos' - 0)%nat).
  assert (Hkf : forall p s', is_Some (kf p s')) by (intros; unfold kf; simpl; eauto).
  change (exec MATCHUP_RE 0 x kf) with
    (exec MATCHUP_HEAD 0 x (fun p s =>
       rep CWord 2 (Some 3) p s (fun p' s' => rep CSpace 0 None p' s' kf))).
  intros H. apply exec_sound in H as (u & v & -> & Hu & H).
  apply matches_head in Hu as (h & m & ap & -> & Htod).
  exists h, m, ap, v. split; [done|]. split; [done|].
  rewrite rep_total in H.
  2:{ intros p s'. rewrite (rep_total _ _ Hkf). case_decide; [apply Hkf|lia]. }
  case_decide; [|discriminate]. split; [done|].
  rewrite (rep_total _ _ Hkf) in H. case_decide; [|lia].
  unfold kf in H. simpl in H. injection H as <-. lia.
Qed.
End MatchupFacts.

Section MatchupTheorems.
Context {U : Runtime}.

Lemma greedy_len_le cs hi s : (greedy_len cs hi s <= length s)%nat.
Proof.
  revert hi. induction s as [|c s IH]; intros hi; simpl; [lia|].
  destruct (in_cset cs c && hi_allows hi); [|lia].
  specialize (IH (hi_pred hi)). lia.
Qed.

Lemma clean_matchup_unfold x :
  clean_matchup x =
  match match_at MATCHUP_RE 0 false x with
  | Some n => drop n x
  | None => x
  end.
Proof.
  unfold clean_matchup, MATCHUP_RE. rewrite re_sub_anchored.
  fold MATCHUP_RE.
  destruct (match_at MATCHUP_RE 0 false x) as [[|n]|] eqn:Hm; auto.
  apply match_at_matchup in Hm as (h & m & ap & v & _ & _ & Hz & Hn). lia.
Qed.

Lemma clean_matchup_cases (x : str) :
  (exists h m ap z ws rest,
      x = clock h m ap ++ z ++ ws ++ rest /\ time_of_day h m ap
      /\ (2 <= length z <= 3)%nat /\ all_in is_word z
      /\ all_in is_space ws
      /\ (length z = 3%nat
          \/ forall c, head (ws ++ rest) = Some c -> is_word c = false)
      /\ (forall c, head rest = Some c -> is_space c = false)
      /\ clean_matchup x = rest)
  \/ (~ time_prefixed is_word x /\ clean_matchup x = x).
Proof.
  rewrite clean_matchup_unfold.
  destruct (match_at MATCHUP_RE 0 false x) as [n|] eqn:Hm.
  - left. apply match_at_matchup in Hm as (h & m & ap & v & -> & Htod & Hz & ->).
    set (gz := greedy_len CWord (Some 3) v) in *.
    set (gs := greedy_len CSpace None (drop gz v)).
    pose proof (greedy_len_le CWord (Some 3) v) as Hle. fold gz in Hle.
    pose proof (greedy_len_within CWord (Some 3) v) as Hup.
    fold gz in Hup. simpl in Hup.
    exists h, m, ap, (take gz v), (take gs (drop gz v)), (drop gs (drop gz v)).
    rewrite !take_drop. rewrite length_take.
    split_and!; auto; try lia.
    + apply (greedy_len_Forall CWord).
    + apply (greedy_len_Forall CSpace).
    + destruct (decide (gz = 3%nat)) as [E|NE]; [left; lia|right].
      intros c Hc.
      apply (greedy_len_maximal CWord) in Hc as [Hc|Hc]; [done|].
      fold gz in Hc. congruence.
    + intros c Hc.
      by apply (greedy_len_maximal CSpace) in Hc as [Hc|Hc].
    + by rewrite <- Nat.add_assoc, drop_app_add, drop_drop.
  - right. split; [|done].
    intros (p & rest & -> & Hp%matches_matchup).
    unfold match_at in Hm.
    eapply (exec_complete _ _ _ _ rest) in Hp; [by rewrite Hm in Hp; destruct Hp|].
    simpl. eauto.
Qed.

Lemma clean_matchup_plain (y : str) :
  ~ time_prefixed is_word y -> clean_matchup y = y.
Proof.
  intros Hy.
  destruct (clean_matchup_cases y)
    as [(h & m & ap & z & ws & rest & -> & Htod & Hz & Hzw & Hws & _)|[_ H]];
    [|done].
  destruct Hy. exists (clock h m ap ++ z ++ ws), rest.
  split; [by rewrite <- !app_assoc|]. exists h, m, ap, z, ws. auto.
Qed.

Lemma clean_matchup_shrinks (y : str) :
  time_prefixed is_word y ->
  (length (clean_matchup y) < length y)%nat.
Proof.
  intros Hy.
  destruct (clean_matchup_cases y)
    as [(h & m & ap & z & ws & rest & -> & Htod & Hz & _ & _ & _ & _ & ->)|[H _]];
    [|done].
  rewrite !length_app. lia.
Qed.

(** C9, as amended. The Matchup cleaning removes a leading prefix exactly
    when the text starts with a time of day (one or two digits, a colon,
    two digits), [AM] or [PM], and two or three word characters (letters,
    digits or the underscore, three when three are there); it removes
    that prefix together with all the whitespace that follows it, and
    removes nothing otherwise. So [7:00PMEST Team A vs Team B] becomes
    [Team A vs Team B]. *)
Theorem clean_matchup_removes_time_prefix (x : str) :
  ((exists h m ap z ws rest,
      x = clock h m ap ++ z ++ ws ++ rest /\ time_of_day h m ap
      /\ (2 <= length z <= 3)%nat /\ all_in is_word z
      /\ all_in is_space ws
      /\ (length z = 3%nat
          \/ forall c, head (ws ++ rest) = Some c -> is_word c = false)
      /\ (forall c, head rest = Some c -> is_space c = false)
      /\ clean_matchup x = rest)
   \/ (~ time_prefixed is_word x /\ clean_matchup x = x))
  /\ clean_matchup (py "7:00PMEST Team A vs Team B") = py "Team A vs Team B".
Proof.
  split; [apply clean_matchup_cases|vm_compute; reflexivity].
Qed.

(** C5, as amended. One application of the Matchup cleaning removes one
    time prefix: applying it twice gives the same as applying it once
    exactly when the once-cleaned text does not itself start with a time
    prefix. *)
Theorem clean_matchup_twice (x : str) :
  clean_matchup (clean_matchup x) = clean_matchup x
  <-> ~ time_prefixed is_word (clean_matchup x).
Proof.
  split.
  - intros E Hp. apply clean_matchup_shrinks in Hp. rewrite E in Hp. lia.
  - apply clean_matchup_plain.
Qed.
End MatchupTheorems.

(** C5, counterexample: a text with two time prefixes loses one at each
    application. *)
Lemma clean_matchup_not_idempotent :
  @clean_matchup basic_latin
    (@clean_matchup basic_latin (py "7:00PMEST 8:30PMCST Jets vs Bills"))
  <> @clean_matchup basic_latin (py "7:00PMEST 8:30PMCST Jets vs Bills").
Proof. vm_compute. discriminate. Qed.

(** C9, counterexample: a zone of two digits is removed although it is not
    a zone of letters. *)
Lemma clean_matchup_digit_zone :
  @clean_matchup basic_latin (py "7:00PM12 Team A") = py "Team A"
  /\ ~ @time_prefixed basic_latin (@is_letter basic_latin) (py "7:00PM12 Team A").
Proof.
  split; [vm_compute; reflexivity|].
  intros (p & rest & E & h & m & ap & z & ws & -> & ((Hh1 & Hh2) & _ & Hm & _)
          & (Hz1 & Hz2) & Hz & _).
  remember (py "7:00PM12 Team A") as x0 eqn:Hx. vm_compute in Hx. subst x0.
  unfold clock in E. change (ch ":") with 58%N in E.
  change (ch "M") with 77%N in E.
  destruct h as [|h1 [|h2 [|]]]; simpl in Hh1, Hh2; try lia;
  destruct m as [|m1 [|m2 [|]]]; simpl in Hm; try lia;
  destruct z as [|z1 z]; simpl in Hz1; try lia; simplify_eq/=.
  apply Forall_cons in Hz as [Hz _]. vm_compute in Hz. discriminate.
Qed.

Section NumberFacts.
Context {U : Runtime}.

Lemma matches_total_has_digit pos u :
  matches TOTAL_RE pos u -> has_digit u.
Proof.
  simpl. intros (d & t & -> & (Hd & Hlen & _) & _).
  destruct d as [|c d]; simpl in Hlen; [lia|].
  apply Forall_cons in Hd as [Hc _]. by left.
Qed.

Lemma matches_spread_has_digit pos u :
  matches SPREAD_RE pos u -> has_digit u.
Proof.
  intros (sg & t & -> & _ & Ht%matches_total_has_digit).
  apply Exists_app. by right.
Qed.

Lemma search_from_no_digit r s :
  (forall pos u, matches r pos u -> has_digit u) ->
  ~ has_digit s -> forall pos, search_from r pos s = None.
Proof.
  intros Hr. induction s as [|c s IH]; intros Hs pos; simpl.
  - destruct (match_at r pos false []) as [n|] eqn:Hm; [|done].
    apply exec_sound in Hm as (u & v & E & Hu%Hr & _).
    destruct Hs. rewrite E. apply Exists_app. by left.
  - destruct (match_at r pos false (c :: s)) as [n|] eqn:Hm.
    + apply exec_sound in Hm as (u & v & E & Hu%Hr & _).
      destruct Hs. rewrite E. apply Exists_app. by left.
    + apply IH. intros H. apply Hs. by right.
Qed.

(** Without a digit there is no number to extract: the text stays. *)
Lemma clean_spread_no_digit x : ~ has_digit x -> clean_spread x = x.
Proof.
  intros Hx. unfold clean_spread, re_search.
  by rewrite (search_from_no_digit _ _ matches_spread_has_digit Hx).
Qed.

Lemma clean_total_no_digit x : ~ has_digit x -> clean_total x = x.
Proof.
  intros Hx. unfold clean_total, re_search.
  by rewrite (search_from_no_digit _ _ matches_total_has_digit Hx).
Qed.
End NumberFacts.

Section FrameFacts.
Context {U : Runtime}.

Lemma get_set_same label col df :
  get_column label (set_column label col df) = Some col.
Proof.
  induction df as [|[l c] df IH]; simpl.
  - by rewrite decide_True.
  - destruct (decide (l = label)) as [->|Hne]; simpl.
    + by rewrite decide_True.
    + by rewrite decide_False.
Qed.

Lemma get_set_other label label' col df :
  label <> label' ->
  get_column label' (set_column label col df) = get_column label' df.
Proof.
  intros Hne. induction df as [|[l c] df IH]; simpl.
  - by rewrite decide_False.
  - destruct (decide (l = label)) as [->|Hl]; simpl.
    + by rewrite !decide_False.
    + destruct (decide (l = label')); auto.
Qed.

Lemma series_apply_ok f col col' :
  series_apply f col = Ok col' <-> Forall2 (fun x y => f x = Ok y) col col'.
Proof.
  revert col'. induction col as [|x col IH]; intros col'; simpl.
  - split; [by intros [= <-]; constructor|by inversion 1].
  - destruct (f x) as [y|e] eqn:Hx.
    + destruct (series_apply f col) as [ys|e] eqn:Hc.
      * split.
        -- intros [= <-]. constructor; [done|]. by apply IH.
        -- inversion 1 as [|? y' ? ys' Hy Hys]; subst.
           apply IH in Hys. congruence.
      * split; [done|]. inversion 1 as [|? y' ? ys' Hy Hys]; subst.
        apply IH in Hys. congruence.
    + split; [done|]. inversion 1; congruence.
Qed.

Lemma apply_column_ok label f df df' :
  apply_column label f df = Ok df' ->
  exists col col',
    get_column label df = Some col
    /\ Forall2 (fun x y => f x = Ok y) col col'
    /\ df' = set_column label col' df.
Proof.
  unfold apply_column, getitem.
  destruct (get_column label df) as [col|]; [|done].
  destruct (series_apply f col) as [col'|] eqn:Hcol; [|done].
  intros [= <-]. apply series_apply_ok in Hcol. eauto.
Qed.

Lemma convert_numeric_raise col :
  forall i e, convert_numeric i col = Raise e -> exn_cls e = ValueError.
Proof.
  induction col as [|x col IH]; intros i e; simpl; [done|].
  destruct x as [s|n].
  - destruct (to_numeric_str s); [|by intros [= <-]].
    destruct (convert_numeric (S i) col) eqn:Hc; [done|].
    intros [= <-]. eauto.
  - destruct (convert_numeric (S i) col) eqn:Hc; [done|].
    intros [= <-]. eauto.
Qed.

Lemma to_numeric_raise col e :
  to_numeric col = Raise e -> exn_cls e = ValueError.
Proof.
  unfold to_numeric. destruct (convert_numeric 0 col) as [|e'] eqn:Hc; [done|].
  intros [= <-]. eauto using convert_numeric_raise.
Qed.

(** The coercion of a column fails exactly when one of its strings is
    not numeric. *)
Lemma convert_numeric_fails col :
  forall i, (exists e, convert_numeric i col = Raise e)
    <-> exists s, CStr s ∈ col /\ to_numeric_str s = None.
Proof.
  induction col as [|x col IH]; intros i; simpl.
  - split; [by intros [? ?]|]. intros (s & Hs & _). by inversion Hs.
  - specialize (IH (S i)). destruct x as [s|n].
    + destruct (to_numeric_str s) eqn:Hs.
      * destruct (convert_numeric (S i) col) eqn:Hc.
        -- split; [by intros [? ?]|]. intros (s' & Hin & Hs').
           apply elem_of_cons in Hin as [[= ->]|Hin]; [congruence|].
           destruct IH as [_ IH]. destruct IH as [? ?]; eauto. done.
        -- split; [|eauto]. intros _. destruct IH as [IH _].
           destruct IH as (s' & ? & ?); eauto. exists s'. split; [by right|done].
      * split; [|eauto]. intros _. exists s. split; [by left|done].
    + destruct (convert_numeric (S i) col) eqn:Hc.
      * split; [by intros [? ?]|]. intros (s' & Hin & Hs').
        apply elem_of_cons in Hin as [[=]|Hin].
        destruct IH as [_ IH]. destruct IH as [? ?]; eauto. done.
      * split; [|eauto]. intros _. destruct IH as [IH _].
        destruct IH as (s' & ? & ?); eauto. exists s'. split; [by right|done].
Qed.

Lemma to_numeric_fails col :
  (exists e, to_numeric col = Raise e)
  <-> exists s, CStr s ∈ col /\ to_numeric_str s = None.
Proof.
  rewrite <- (convert_numeric_fails col 0). unfold to_numeric.
  destruct (convert_numeric 0 col); split; intros [e' He]; eauto; done.
Qed.
End FrameFacts.

Section WorkerFacts.
Context {U : Runtime} (cfg : config) (E : env).

Lemma path_parent_file p name : path_parent (p ++ [name]) = p.
Proof.
  unfold path_parent. rewrite length_app. simpl.
  rewrite Nat.add_1_r. simpl. by rewrite take_app_length.
Qed.

Lemma process_week_ok week df w :
  week_frame E week = Ok df ->
  process_week cfg E week w = (Ok tt, exported cfg E week df w).
Proof.
  intros Hdf. unfold process_week, exported, week_events, export_week.
  unfold mbind, action_bind, emit, lift, mkdir_parents, write_excel,
    output_file. simpl.
  rewrite Hdf. rewrite path_parent_file. simpl.
  by rewrite <- !app_assoc.
Qed.

Lemma process_week_raise week e w :
  week_frame E week = Raise e ->
  process_week cfg E week w
  = (Raise e,
     World (dirs w) (files w) (trace w ++ [EvGet (week_url cfg week)])).
Proof.
  intros Hdf. unfold process_week.
  unfold mbind, action_bind, emit, lift. simpl. by rewrite Hdf.
Qed.

Lemma loop_cons_ok week rest w :
  week_ok E week ->
  loop cfg E (week :: rest) w
  = loop cfg E rest (exported cfg E week (frame_of E week) w).
Proof.
  intros [Ha [df Hdf]]. simpl. rewrite Ha. simpl.
  unfold mbind at 1, action_bind. rewrite (process_week_ok _ df) by done.
  unfold frame_of. by rewrite Hdf.
Qed.

Lemma loop_app_ok pre rest w :
  Forall (week_ok E) pre ->
  loop cfg E (pre ++ rest) w = loop cfg E rest (after_weeks cfg E pre w).
Proof.
  intros Hpre. revert w.
  induction Hpre as [|week pre Hweek _ IH]; intros w; [done|].
  rewrite <- app_comm_cons, loop_cons_ok by done. by rewrite IH.
Qed.

Lemma loop_cons_stopped week rest w :
  scraping_active E week = false ->
  loop cfg E (week :: rest) w
  = (Ok tt, World (dirs w) (files w) (trace w ++ [EvProgress STOPPED])).
Proof. intros Ha. simpl. by rewrite Ha. Qed.

Lemma loop_cons_raise week rest e w :
  scraping_active E week = true ->
  week_frame E week = Raise e ->
  loop cfg E (week :: rest) w
  = (Raise e,
     World (dirs w) (files w) (trace w ++ [EvGet (week_url cfg week)])).
Proof.
  intros Ha He. simpl. rewrite Ha. simpl.
  unfold mbind at 1, action_bind. by rewrite (process_week_raise _ e).
Qed.

Lemma trace_after_weeks weeks w :
  trace (after_weeks cfg E weeks w)
  = trace w ++ events_of cfg E weeks.
Proof.
  revert w. induction weeks as [|v weeks IH]; intros w; simpl.
  - by rewrite app_nil_r.
  - unfold after_weeks, events_of in *. simpl. rewrite IH. simpl.
    by rewrite <- !app_assoc.
Qed.

Lemma files_after_weeks_keep weeks w p :
  is_Some (files w !! p) ->
  is_Some (files (after_weeks cfg E weeks w) !! p).
Proof.
  revert w. induction weeks as [|v weeks IH]; intros w Hp; [done|].
  unfold after_weeks in *. simpl. apply IH. simpl.
  rewrite lookup_insert. case_decide; eauto.
Qed.

Lemma files_after_weeks weeks w v :
  v ∈ weeks ->
  is_Some (files (after_weeks cfg E weeks w)
             !! output_file cfg (now_year E v) v).
Proof.
  revert w. induction weeks as [|v' weeks IH]; intros w Hv;
    [by inversion Hv|].
  apply elem_of_cons in Hv as [->|Hv].
  - unfold after_weeks. simpl. apply files_after_weeks_keep. simpl.
    rewrite lookup_insert_eq. eauto.
  - unfold after_weeks in *. simpl. by apply IH.
Qed.

Lemma dirs_after_weeks weeks w :
  weeks <> [] -> OUTPUT_PATH cfg ∈ dirs (after_weeks cfg E weeks w).
Proof.
  assert (Hmono : forall weeks w p, p ∈ dirs w ->
            p ∈ dirs (after_weeks cfg E weeks w)).
  { clear. intros weeks. induction weeks as [|v weeks IH]; intros w p Hp;
      [done|].
    unfold after_weeks in *. simpl. apply IH. simpl. set_solver. }
  destruct weeks as [|v weeks]; [done|]. intros _.
  unfold after_weeks. simpl. apply Hmono. simpl.
  apply elem_of_union_r, elem_of_list_to_set.
  clear. induction (OUTPUT_PATH cfg) as [|part p IH]; simpl; [by left|].
  right. apply list_elem_of_fmap. eauto.
Qed.

Lemma py_range_split a w b :
  (a <= w <= b)%Z ->
  py_range a (b + 1) = py_range a w ++ w :: py_range (w + 1) (b + 1).
Proof.
  intros Hw. unfold py_range.
  replace (b + 1 - a)%Z with ((w - a) + (b + 1 - w))%Z by lia.
  rewrite seqZ_app by lia. f_equal.
  replace (a + (w - a))%Z with w by lia.
  rewrite seqZ_cons by lia. f_equal. f_equal; lia.
Qed.

Lemma elem_of_py_range a b v : v ∈ py_range a b <-> (a <= v < b)%Z.
Proof. unfold py_range. rewrite elem_of_seqZ. lia. Qed.

Lemma py_range_ok a w :
  (forall v, (a <= v < w)%Z -> week_ok E v) ->
  Forall (week_ok E) (py_range a w).
Proof.
  intros H. apply Forall_forall. intros v Hv%elem_of_py_range. auto.
Qed.
End WorkerFacts.

Section RunFacts.
Context {U : Runtime} (cfg : config) (E : env).

Lemma py_inj s1 s2 : py s1 = py s2 -> s1 = s2.
Proof.
  revert s2. induction s1 as [|a s1 IH]; intros [|b s2]; simpl; try done.
  intros [= Hab Hs]. f_equal; [|by apply IH].
  rewrite <- (ascii_N_embedding a), <- (ascii_N_embedding b). by rewrite Hab.
Qed.

Lemma week_url_inj v v' : week_url cfg v = week_url cfg v' -> v = v'.
Proof.
  unfold week_url, str_of_int. intros H.
  apply app_inv_head in H. apply app_inv_head in H.
  apply py_inj in H. by apply (inj pretty) in H.
Qed.

Lemma elem_of_events_of weeks ev :
  ev ∈ events_of cfg E weeks <->
  exists v, v ∈ weeks /\ ev ∈ week_events cfg E v (frame_of E v).
Proof.
  unfold events_of. rewrite list_elem_of_join. split.
  - intros (l & Hev & (v & -> & Hv)%list_elem_of_fmap). eauto.
  - intros (v & Hv & Hev). eexists. split; [done|].
    apply list_elem_of_fmap. eauto.
Qed.

Lemma events_of_no_error weeks : filter (fun ev => is_error ev = true) (events_of cfg E weeks) = [].
Proof.
  unfold events_of. induction weeks as [|v weeks IH]; [done|].
  simpl. rewrite !filter_cons. simpl.
  repeat case_decide; try done.
Qed.

Lemma events_of_get weeks v :
  EvGet (week_url cfg v) ∈ events_of cfg E weeks -> v ∈ weeks.
Proof.
  intros (v' & Hv' & Hev)%elem_of_events_of.
  unfold week_events in Hev.
  apply elem_of_cons in Hev as [[= H%week_url_inj]|Hev]; [by subst|].
  apply elem_of_cons in Hev as [[=]|Hev].
  apply elem_of_cons in Hev as [[=]|Hev]. by inversion Hev.
Qed.

Lemma run_prefix start_week end_week w w0 :
  (start_week <= w <= end_week)%Z ->
  (forall v, (start_week <= v < w)%Z -> week_ok E v) ->
  loop cfg E (py_range start_week (end_week + 1)) w0
  = loop cfg E (w :: py_range (w + 1) (end_week + 1))
      (after_weeks cfg E (py_range start_week w) w0).
Proof.
  intros Hw Hok. rewrite (py_range_split _ w) by done.
  apply loop_app_ok. by apply py_range_ok.
Qed.
End RunFacts.

Section RunTheorems.
Context {U : Runtime} (cfg : config) (E : env).

Lemma exported_before start_week w w0 v :
  (start_week <= v < w)%Z ->
  is_Some (files (after_weeks cfg E (py_range start_week w) w0)
             !! output_file cfg (now_year E v) v)
  /\ OUTPUT_PATH cfg ∈ dirs (after_weeks cfg E (py_range start_week w) w0)
  /\ week_events cfg E v (frame_of E v)
     ⊆ events_of cfg E (py_range start_week w).
Proof.
  intros Hv. assert (Hin : v ∈ py_range start_week w)
    by by apply elem_of_py_range.
  split_and!.
  - by apply files_after_weeks.
  - apply dirs_after_weeks. intros H. rewrite H in Hin. by inversion Hin.
  - intros ev Hev. apply elem_of_events_of. eauto.
Qed.



(** C3. When the flag is found cleared at the top of the iteration for
    week [w], the weeks from [start_week] to [w - 1] have been fetched
    and exported (the one during which Stop was pressed included: the
    flag is read nowhere else), week [w] and the later ones are not
    navigated to, the progress signal [Scraping stopped by user.] is
    emitted, no error signal is, and the run ends as [Completed]. *)
Theorem run_stops_on_cancellation start_week end_week w w0 :
  (start_week <= w <= end_week)%Z ->
  (forall v, (start_week <= v < w)%Z -> week_ok E v) ->
  scraping_active E w = false ->
  let w1 := after_weeks cfg E (py_range start_week w) w0 in
  let new := events_of cfg E (py_range start_week w)
             ++ [EvProgress (py "Scraping stopped by user."); EvFinished] in
  run cfg E start_week end_week w0
  = (Completed, World (dirs w1) (files w1) (trace w0 ++ new))
  /\ (forall v, (start_week <= v < w)%Z ->
        is_Some (files w1 !! output_file cfg (now_year E v) v)
        /\ OUTPUT_PATH cfg ∈ dirs w1
        /\ week_events cfg E v (frame_of E v) ⊆ new)
  /\ (forall v, (w <= v)%Z -> EvGet (week_url cfg v) ∉ new)
  /\ filter (fun ev => is_error ev = true) new = [].
Proof.
  intros Hw Hok Ha w1 new. split_and!.
  - unfold run. rewrite (run_prefix _ _ _ _ w) by done.
    rewrite loop_cons_stopped by done. simpl.
    subst w1 new. rewrite trace_after_weeks.
    by rewrite <- !app_assoc.
  - intros v Hv.
    destruct (exported_before start_week w w0 v Hv) as (Hf & Hd & Hev).
    split_and!; [done|done|]. intros ev Hin. apply elem_of_app. left. auto.
  - intros v Hv [Hin|Hin]%elem_of_app.
    + apply events_of_get, elem_of_py_range in Hin. lia.
    + repeat (apply elem_of_cons in Hin as [?|Hin]); try done.
      by inversion Hin.
  - unfold new. rewrite filter_app, events_of_no_error. reflexivity.
Qed.
End RunTheorems.

Section ApplyFacts.
Context {U : Runtime}.

Lemma apply_column_missing label f df :
  get_column label df = None ->
  apply_column label f df
  = Raise (Exn KeyError (APOSTROPHE :: label ++ [APOSTROPHE])).
Proof. intros H. unfold apply_column, getitem. by rewrite H. Qed.

Lemma series_apply_str f g (l : list str) :
  (forall s, f (CStr s) = Ok (CStr (g s))) ->
  series_apply f (CStr <$> l) = Ok (CStr <$> (g <$> l)).
Proof.
  intros Hf. induction l as [|s l IH]; csimpl; [done|].
  by rewrite Hf, IH.
Qed.

Lemma apply_column_str label f g df (l : list str) :
  (forall s, f (CStr s) = Ok (CStr (g s))) ->
  get_column label df = Some (CStr <$> l) ->
  apply_column label f df = Ok (set_column label (CStr <$> (g <$> l)) df).
Proof.
  intros Hf H. unfold apply_column, getitem. rewrite H.
  by rewrite (series_apply_str f g).
Qed.
End ApplyFacts.

Section MoreRunTheorems.
Context {U : Runtime} (cfg : config) (E : env).

Lemma process_week_trace week w :
  exists evs,
    trace (snd (process_week cfg E week w)) = trace w ++ evs
    /\ Forall (fun ev => is_finished ev = false) evs.
Proof.
  destruct (week_frame E week) as [df|e] eqn:Hdf.
  - rewrite (process_week_ok _ _ _ df) by done. simpl.
    eexists. split; [done|]. repeat constructor.
  - rewrite (process_week_raise _ _ _ e) by done. simpl.
    eexists. split; [done|]. repeat constructor.
Qed.

Lemma loop_trace weeks :
  forall w, exists evs,
    trace (snd (loop cfg E weeks w)) = trace w ++ evs
    /\ Forall (fun ev => is_finished ev = false) evs.
Proof.
  induction weeks as [|week weeks IH]; intros w; simpl.
  - exists []. by rewrite app_nil_r.
  - destruct (scraping_active E week); simpl.
    + unfold mbind at 1, action_bind.
      destruct (process_week_trace week w) as (evs1 & H1 & F1).
      destruct (process_week cfg E week w) as [[[]|e] w']; simpl in *.
      * destruct (IH w') as (evs2 & H2 & F2).
        exists (evs1 ++ evs2). rewrite H2, H1, app_assoc.
        split; [done|]. by apply Forall_app.
      * eauto.
    + eexists. split; [done|]. repeat constructor.
Qed.

(** C4. However [run] ends (all weeks done, stopped, an exception
    handled, an exception escaping), it emits the finished signal
    exactly once, as its last signal. *)
Theorem run_emits_finished_once start_week end_week w0 :
  exists evs,
    trace (snd (run cfg E start_week end_week w0))
    = trace w0 ++ evs ++ [EvFinished]
    /\ Forall (fun ev => is_finished ev = false) evs.
Proof.
  unfold run.
  destruct (loop_trace (py_range start_week (end_week + 1)) w0)
    as (evs & Ht & Hf).
  destruct (loop cfg E _ w0) as [[[]|e] w1]; simpl in *.
  - exists evs. by rewrite Ht, app_assoc.
  - destruct (handled e); simpl.
    + exists (evs ++ [EvError (error_message e)]).
      rewrite Ht, <- !app_assoc. split; [done|].
      apply Forall_app. split; [done|]. repeat constructor.
    + exists evs. by rewrite Ht, app_assoc.
Qed.

(** C10. An exception raised while a week is processed that is neither
    a [ValueError] nor a [WebDriverException] leaves [run]: no error
    signal is emitted, the finished signal still is. A page whose frame
    lacks one of the columns [Spread], [Total], [Moneyline] raises such
    an exception, a [KeyError]. *)
Theorem run_lets_other_exceptions_escape :
  (forall start_week end_week w e w0,
     (start_week <= w <= end_week)%Z ->
     (forall v, (start_week <= v < w)%Z -> week_ok E v) ->
     scraping_active E w = true ->
     week_frame E w = Raise e ->
     is_ValueError (exn_cls e) = false ->
     is_WebDriverException (exn_cls e) = false ->
     let w1 := after_weeks cfg E (py_range start_week w) w0 in
     let new := events_of cfg E (py_range start_week w)
                ++ [EvGet (week_url cfg w); EvFinished] in
     run cfg E start_week end_week w0
     = (Escaped e, World (dirs w1) (files w1) (trace w0 ++ new))
     /\ filter (fun ev => is_error ev = true) new = []
     /\ last new = Some EvFinished)
  /\ (forall w df df1 label,
        load_page E w = Ok df ->
        label ∈ [SPREAD; TOTAL; MONEYLINE] ->
        get_column label df = None ->
        apply_column MATCHUP matchup_lambda df = Ok df1 ->
        (forall l col, l ∈ [SPREAD; TOTAL; MONEYLINE] ->
           get_column l df = Some col -> exists s, col = CStr <$> s) ->
        exists e, week_frame E w = Raise e /\ exn_cls e = KeyError).
Proof.
  split.
  - intros start_week end_week w e w0 Hw Hok Ha He Hv Hd w1 new. split_and!.
    + unfold run. rewrite (run_prefix _ _ _ _ w) by done.
      rewrite (loop_cons_raise _ _ _ _ e) by done.
      unfold handled. rewrite Hv, Hd. simpl.
      subst w1 new. rewrite trace_after_weeks.
      by rewrite <- !app_assoc.
    + unfold new. rewrite filter_app, events_of_no_error. reflexivity.
    + unfold new.
      change [EvGet (week_url cfg w); EvFinished]
        with ([EvGet (week_url cfg w)] ++ [EvFinished]).
      rewrite app_assoc. apply last_snoc.
  - intros w df df1 label Hload Hlabel Hmiss Hm Hstr.
    pose proof Hm as Hm'.
    apply apply_column_ok in Hm' as (colM & colM' & _ & _ & ->).
    unfold week_frame. rewrite Hload. simpl.
    unfold clean_frame. rewrite Hm. simpl.
    set (df1 := set_column MATCHUP colM' df) in *.
    assert (HS : get_column SPREAD df1 = get_column SPREAD df)
      by by apply get_set_other.
    destruct (get_column SPREAD df) as [colS|] eqn:ES.
    2:{ rewrite apply_column_missing by done. simpl. eauto. }
    destruct (Hstr SPREAD colS) as [sS ->]; [repeat constructor|done|].
    rewrite (apply_column_str _ _ clean_spread _ sS) by done. simpl.
    set (df2 := set_column SPREAD _ df1).
    assert (HT : get_column TOTAL df2 = get_column TOTAL df).
    { unfold df2, df1. by rewrite !get_set_other. }
    destruct (get_column TOTAL df) as [colT|] eqn:ET.
    2:{ rewrite apply_column_missing by done. simpl. eauto. }
    destruct (Hstr TOTAL colT) as [sT ->]; [repeat constructor|done|].
    rewrite (apply_column_str _ _ clean_total _ sT) by done. simpl.
    set (df3 := set_column TOTAL _ df2).
    assert (HM : get_column MONEYLINE df3 = get_column MONEYLINE df).
    { unfold df3, df2, df1. by rewrite !get_set_other. }
    assert (EM : get_column MONEYLINE df = None).
    { repeat (apply elem_of_cons in Hlabel as [->|Hlabel]);
        try congruence. by inversion Hlabel. }
    rewrite apply_column_missing by congruence. simpl. eauto.
Qed.
End MoreRunTheorems.

Section CoercionTheorems.
Context {U : Runtime} (cfg : config) (E : env).

(** After the cleaning steps the three columns are there, and the
    [Spread] column is the cleaned one of the page. *)
Lemma clean_frame_columns df0 df1 :
  clean_frame df0 = Ok df1 ->
  exists cS cS' cT' cM',
    get_column SPREAD df0 = Some cS
    /\ Forall2 (fun x y => spread_lambda x = Ok y) cS cS'
    /\ get_column SPREAD df1 = Some cS'
    /\ get_column TOTAL df1 = Some cT'
    /\ get_column MONEYLINE df1 = Some cM'.
Proof.
  unfold clean_frame.
  destruct (apply_column MATCHUP matchup_lambda df0) as [dfa|] eqn:Ha;
    [simpl|done].
  destruct (apply_column SPREAD spread_lambda dfa) as [dfb|] eqn:Hb;
    [simpl|done].
  destruct (apply_column TOTAL total_lambda dfb) as [dfc|] eqn:Hc;
    [simpl|done].
  intros Hd.
  apply apply_column_ok in Ha as (? & cA' & _ & _ & ->).
  apply apply_column_ok in Hb as (cS & cS' & HS & HS' & ->).
  apply apply_column_ok in Hc as (? & cT' & _ & _ & ->).
  apply apply_column_ok in Hd as (? & cM' & _ & _ & ->).
  rewrite get_set_other in HS by done.
  exists cS, cS', cT', cM'. split_and!; [done|done|..].
  - do 2 (rewrite get_set_other by done). apply get_set_same.
  - rewrite get_set_other by done. apply get_set_same.
  - apply get_set_same.
Qed.

Lemma coerce_column_some label df col :
  get_column label df = Some col ->
  coerce_column label df
  = match to_numeric col with
    | Ok col' => Ok (set_column label col' df)
    | Raise e => Raise e
    end.
Proof. intros H. unfold coerce_column, getitem. by rewrite H. Qed.

Lemma coerce_frame_fails df1 label col s :
  (exists c, get_column SPREAD df1 = Some c) ->
  (exists c, get_column TOTAL df1 = Some c) ->
  (exists c, get_column MONEYLINE df1 = Some c) ->
  label ∈ [SPREAD; TOTAL; MONEYLINE] ->
  get_column label df1 = Some col ->
  CStr s ∈ col -> to_numeric_str s = None ->
  exists e, coerce_frame df1 = Raise e /\ is_ValueError (exn_cls e) = true.
Proof.
  intros [cS HS] [cT HT] [cM HM] Hlabel Hcol Hs Hbad.
  assert (Hfail : exists e, to_numeric col = Raise e)
    by (apply to_numeric_fails; eauto).
  destruct Hfail as [e0 He0].
  unfold coerce_frame. rewrite (coerce_column_some _ _ _ HS).
  destruct (to_numeric cS) as [cS'|e] eqn:ES; simpl.
  2:{ exists e. split; [done|]. by rewrite (to_numeric_raise _ _ ES). }
  rewrite (coerce_column_some TOTAL _ cT)
    by (by rewrite get_set_other).
  destruct (to_numeric cT) as [cT'|e] eqn:ET; simpl.
  2:{ exists e. split; [done|]. by rewrite (to_numeric_raise _ _ ET). }
  rewrite (coerce_column_some MONEYLINE _ cM)
    by (by do 2 (rewrite get_set_other by done)).
  destruct (to_numeric cM) as [cM'|e] eqn:EM; simpl.
  2:{ exists e. split; [done|]. by rewrite (to_numeric_raise _ _ EM). }
  repeat (apply elem_of_cons in Hlabel as [->|Hlabel]); try congruence.
  by inversion Hlabel.
Qed.

(** C1, as amended. When a cleaned value of the [Spread], [Total] or
    [Moneyline] column is a string that the numeric coercion rejects,
    the week's processing fails as a whole: a [ValueError] propagates
    and nothing is written. A [Spread] cell without a decimal digit is
    left as it is by the cleaning, and makes the week fail whenever the
    coercion rejects that text. *)
Theorem coercion_failure_fails_the_week :
  (forall week df0 df1 w,
     load_page E week = Ok df0 -> clean_frame df0 = Ok df1 ->
     (exists label col s,
        label ∈ [SPREAD; TOTAL; MONEYLINE]
        /\ get_column label df1 = Some col
        /\ CStr s ∈ col /\ to_numeric_str s = None) ->
     week_fails cfg E week w)
  /\ (forall x, ~ has_digit x -> clean_spread x = x)
  /\ (forall week df0 df1 col x w,
        load_page E week = Ok df0 -> clean_frame df0 = Ok df1 ->
        get_column SPREAD df0 = Some col -> CStr x ∈ col ->
        ~ has_digit x -> to_numeric_str x = None ->
        week_fails cfg E week w).
Proof.
  assert (H1 : forall week df0 df1 w,
     load_page E week = Ok df0 -> clean_frame df0 = Ok df1 ->
     (exists label col s,
        label ∈ [SPREAD; TOTAL; MONEYLINE]
        /\ get_column label df1 = Some col
        /\ CStr s ∈ col /\ to_numeric_str s = None) ->
     week_fails cfg E week w).
  { intros week df0 df1 w Hload Hclean (label & col & s & Hl & Hc & Hs & Hb).
    destruct (clean_frame_columns _ _ Hclean)
      as (cS & cS' & cT' & cM' & _ & _ & HS & HT & HM).
    destruct (coerce_frame_fails df1 label col s) as (e & He & Hv); eauto.
    assert (Hw : week_frame E week = Raise e).
    { unfold week_frame. rewrite Hload. simpl. by rewrite Hclean. }
    exists e. split_and!; [done|done|]. by apply process_week_raise. }
  split_and!; [exact H1|apply clean_spread_no_digit|].
  intros week df0 df1 col x w Hload Hclean Hcol Hx Hnd Hbad.
  apply (H1 week df0 df1 w Hload Hclean).
  destruct (clean_frame_columns _ _ Hclean)
    as (cS & cS' & cT' & cM' & HS0 & HF & HS & _).
  assert (cS = col) as -> by congruence.
  apply list_elem_of_lookup in Hx as [i Hi].
  destruct (Forall2_lookup_l _ _ _ _ _ HF Hi) as (y & Hy & Hxy).
  simpl in Hxy. injection Hxy as <-.
  rewrite clean_spread_no_digit in Hy by done.
  exists SPREAD, cS', x. split_and!; [by left|done| |done].
  apply list_elem_of_lookup. eauto.
Qed.
End CoercionTheorems.

Section ExportTheorems.
Context {U : Runtime} (cfg : config) (E : env).

Lemma fmt02_two_digits n : (0 <= n < 100)%Z -> fmt02 n = two_digits n.
Proof.
  intros Hn.
  assert (H : forallb (fun n => bool_decide (fmt02 n = two_digits n))
                (seqZ 0 100) = true) by (vm_compute; reflexivity).
  rewrite forallb_forall in H.
  specialize (H n). rewrite bool_decide_eq_true in H. apply H.
  apply list_elem_of_In, elem_of_seqZ. lia.
Qed.

Lemma elem_of_ancestors (d p : path) : d `prefix_of` p -> d ∈ ancestors p.
Proof.
  revert d. induction p as [|part p IH]; intros d [k Hk]; simpl.
  - symmetry in Hk. apply app_eq_nil in Hk as [-> _]. by left.
  - destruct d as [|part' d]; [by left|]. right.
    simpl in Hk. injection Hk as <- ->.
    apply list_elem_of_fmap. exists d. split; [done|].
    apply IH. by exists k.
Qed.

Lemma to_excel_rows df :
  to_excel df false true
  = ((fun lc => CStr (fst lc)) <$> df)
    :: (frame_row false df <$> seq 0 (nrows df)).
Proof. reflexivity. Qed.

Lemma to_excel_width df :
  Forall (fun row => length row = length df) (to_excel df false true).
Proof.
  rewrite to_excel_rows. constructor; [by rewrite length_fmap|].
  apply Forall_fmap, Forall_forall. intros i _. simpl.
  unfold frame_row. simpl. by rewrite length_fmap.
Qed.

(** C8. A week that goes through writes exactly one workbook, at
    [OUTPUT_PATH/YYWW.xlsx] with [YY] the year minus 2000 and [WW] the
    week, each in the format [:02] (two digits for the years 2000 to
    2099 and the weeks below 100); the directory and its ancestors exist
    afterwards; the sheet starts with the row of the labels, has no index
    column, and replaces whatever was at that path. *)
Theorem export_writes_the_week_file week df w :
  week_frame E week = Ok df ->
  let y := now_year E week in
  let file :=
    OUTPUT_PATH cfg ++ [fmt02 (y - 2000) ++ fmt02 week ++ py ".xlsx"] in
  let sh :=
    ((fun lc => CStr (fst lc)) <$> df)
    :: (frame_row false df <$> seq 0 (nrows df)) in
  let w' := snd (process_week cfg E week w) in
  fst (process_week cfg E week w) = Ok tt
  /\ files w' = <[file := sh]> (files w)
  /\ files w' !! file = Some sh
  /\ (forall p, p <> file -> files w' !! p = files w !! p)
  /\ trace w'
     = trace w ++ [EvGet (week_url cfg week); EvWrite file sh;
                   EvProgress (week_done week)]
  /\ (forall d, d `prefix_of` OUTPUT_PATH cfg -> d ∈ dirs w')
  /\ Forall (fun row => length row = length df) sh
  /\ ((2000 <= y < 2100)%Z -> (0 <= week < 100)%Z ->
      file = OUTPUT_PATH cfg
             ++ [two_digits (y - 2000) ++ two_digits week ++ py ".xlsx"]).
Proof.
  intros Hdf y file sh w'. subst w'.
  rewrite (process_week_ok _ _ _ df) by done. simpl.
  fold y. change (output_file cfg y week) with file.
  rewrite to_excel_rows. fold sh.
  split_and!; auto.
  - apply lookup_insert_eq.
  - intros p Hp. by apply lookup_insert_ne.
  - intros d Hd. apply elem_of_union_r, elem_of_list_to_set.
    by apply elem_of_ancestors.
  - subst sh. rewrite <- to_excel_rows. apply to_excel_width.
  - intros Hy Hw. unfold file. by rewrite !fmt02_two_digits by lia.
Qed.
End ExportTheorems.

Section Examples.
Context {U : Runtime}.

(** C6. Cleaning and coercion take the [Spread] cell [-3.5 (-110)] to
    the number -3.5, the [Total] cell [47.5u] to 47.5 and the
    [Moneyline] cell written with U+2212 and [150] to -150. *)
Theorem numeric_extraction_examples :
  (clean_spread (py "-3.5 (-110)") = py "-3.5"
   /\ to_numeric_str (py "-3.5") = Some (NDec (-35) (-1))
   /\ exists q, num_value (NDec (-35) (-1)) = Some q /\ (q == - (7 # 2))%Q)
  /\ (clean_total (py "47.5u") = py "47.5"
      /\ to_numeric_str (py "47.5") = Some (NDec 475 (-1))
      /\ exists q, num_value (NDec 475 (-1)) = Some q /\ (q == 95 # 2)%Q)
  /\ (clean_moneyline (MINUS_SIGN :: py "150") = py "-150"
      /\ to_numeric_str (py "-150") = Some (NInt (-150))
      /\ exists q, num_value (NInt (-150)) = Some q /\ (q == - (150 # 1))%Q)
  /\ (df ← clean_frame
             (sample_row (py "7:00PMEST Team A vs Team B") (py "-3.5 (-110)")
                         (py "47.5u") (MINUS_SIGN :: py "150"));
      coerce_frame df)
     = Ok [(MATCHUP, [CStr (py "Team A vs Team B")]);
           (SPREAD, [CNum (NDec (-35) (-1))]);
           (TOTAL, [CNum (NDec 475 (-1))]);
           (MONEYLINE, [CNum (NInt (-150))])].
Proof.
  split_and!; try (vm_compute; reflexivity);
    (eexists; split; [reflexivity|reflexivity]).
Qed.
End Examples.

Section ValidationTheorems.
Context {U : Runtime}.

Lemma validate_week_none week_str label :
  validate_week week_str label = None
  <-> exists week, py_int week_str = Some week /\ (1 <= week <= 18)%Z.
Proof.
  unfold validate_week. destruct (py_int week_str) as [week|].
  - destruct (week <? 1)%Z eqn:H1; destruct (18 <? week)%Z eqn:H2; simpl;
      split; try done; try (intros (? & [= <-] & ?); lia).
    intros _. exists week. split; [done|lia].
  - split; [done|]. by intros (? & ? & _).
Qed.

(** The two ways out of [validate_inputs]. *)
Lemma validate_inputs_cases (g : window) :
  (exists r, valid_fields g r /\ validate_inputs g = (true, g))
  \/ (exists msg, validate_inputs g = (false, set_status msg g)
                  /\ msg <> py "Running..."
                  /\ forall r, ~ valid_fields g r).
Proof.
  unfold validate_inputs.
  destruct (validate_week (start_week_edit g) _) as [m|] eqn:Hs.
  { right. exists m. split_and!; [done| |].
    - unfold validate_week in Hs.
      destruct (py_int (start_week_edit g)) as [s|];
        [destruct (_ || _); [|done]|]; injection Hs as <-;
        vm_compute; discriminate.
    - intros [s e] (Hs' & _ & Hr). unfold valid_range in Hr.
      simpl in Hs', Hr.
      assert (validate_week (start_week_edit g) (py "Start week") = None)
        by (apply validate_week_none; exists s; split; [done|lia]).
      congruence. }
  destruct (validate_week (end_week_edit g) _) as [m|] eqn:He.
  { right. exists m. split_and!; [done| |].
    - unfold validate_week in He.
      destruct (py_int (end_week_edit g)) as [e|];
        [destruct (_ || _); [|done]|]; injection He as <-;
        vm_compute; discriminate.
    - intros [s e] (_ & He' & Hr). unfold valid_range in Hr.
      simpl in He', Hr.
      assert (validate_week (end_week_edit g) (py "End week") = None)
        by (apply validate_week_none; exists e; split; [done|lia]).
      congruence. }
  apply validate_week_none in Hs as (s & Hs & Hsr).
  apply validate_week_none in He as (e & He & Her).
  rewrite Hs, He. destruct (e <? s)%Z eqn:Hlt.
  - right. exists END_BEFORE_START. split_and!; [done|vm_compute; discriminate|].
    intros [s' e'] (Hs' & He' & Hr). unfold valid_range in Hr.
    simpl in Hs', He', Hr. rewrite Hs in Hs'. rewrite He in He'.
    injection Hs' as <-. injection He' as <-. lia.
  - left. exists (s, e). split; [|done].
    unfold valid_fields, valid_range. simpl. split_and!; auto; lia.
Qed.

(** C7. [validate_inputs] returns [True] exactly when both texts read
    as integers between 1 and 18 with the end week not before the start
    week, and it changes nothing of the window but the status text, which
    it leaves alone when it returns [True]. A start week that is not a
    number is rejected with the status [Start week must be a number
    between 1 and 18.]; one out of range, such as [0], with [Start week
    must be between 1 and 18.]; an end week before the start week with
    [End week must be greater than or equal to start week.]. A rejected
    input starts no worker: [start_scraping] returns with the worker as
    it was, Start enabled and the message of the validation as status.
    [int] does not skip the separators U+001C to U+001F. *)
Theorem validate_inputs_spec (g : window) :
  (fst (validate_inputs g) = true
   <-> exists s e,
         py_int (start_week_edit g) = Some s
         /\ py_int (end_week_edit g) = Some e
         /\ (1 <= s <= 18)%Z /\ (1 <= e <= 18)%Z /\ (s <= e)%Z)
  /\ (start_week_edit (snd (validate_inputs g)) = start_week_edit g
      /\ end_week_edit (snd (validate_inputs g)) = end_week_edit g
      /\ start_button_enabled (snd (validate_inputs g))
         = start_button_enabled g
      /\ stop_button_enabled (snd (validate_inputs g))
         = stop_button_enabled g
      /\ worker (snd (validate_inputs g)) = worker g)
  /\ (fst (validate_inputs g) = true ->
      status_text (snd (validate_inputs g)) = status_text g)
  /\ (py_int (start_week_edit g) = None ->
      fst (validate_inputs g) = false
      /\ status_text (snd (validate_inputs g))
         = py "Start week must be a number between 1 and 18.")
  /\ (forall s, py_int (start_week_edit g) = Some s ->
        ~ (1 <= s <= 18)%Z ->
        fst (validate_inputs g) = false
        /\ status_text (snd (validate_inputs g))
           = py "Start week must be between 1 and 18.")
  /\ (forall s e,
        py_int (start_week_edit g) = Some s ->
        py_int (end_week_edit g) = Some e ->
        (1 <= s <= 18)%Z -> (1 <= e <= 18)%Z -> (e < s)%Z ->
        fst (validate_inputs g) = false
        /\ status_text (snd (validate_inputs g))
           = py "End week must be greater than or equal to start week.")
  /\ (fst (validate_inputs g) = false ->
      forall driver, exists g',
        start_scraping driver g = Ok g' /\ worker g' = worker g
        /\ start_button_enabled g' = true
        /\ status_text g' = status_text (snd (validate_inputs g))
        /\ status_text g' <> py "Running...")
  /\ py_int (py "0") = Some 0%Z /\ py_int (py "5") = Some 5%Z
  /\ py_int (py "3") = Some 3%Z /\ py_int (py "abc") = None
  /\ py_int (py " 7 ") = Some 7%Z /\ py_int (31%N :: py "3") = None.
Proof.
  split_and!; try (vm_compute; reflexivity).
  - unfold validate_inputs.
    destruct (validate_week (start_week_edit g) _) as [m|] eqn:Hs.
    { simpl. split; [done|]. intros (s & e & Hps & _ & Hr & _).
      assert (validate_week (start_week_edit g) (py "Start week") = None)
        by (apply validate_week_none; eauto). congruence. }
    destruct (validate_week (end_week_edit g) _) as [m|] eqn:He.
    { simpl. split; [done|]. intros (s & e & _ & Hpe & _ & Hr & _).
      assert (validate_week (end_week_edit g) (py "End week") = None)
        by (apply validate_week_none; eauto). congruence. }
    apply validate_week_none in Hs as (s & Hs & Hsr).
    apply validate_week_none in He as (e & He & Her).
    rewrite Hs, He. destruct (e <? s)%Z eqn:Hlt; simpl.
    + split; [done|]. intros (s' & e' & [= <-] & [= <-] & _ & _ & ?). lia.
    + split; [|done]. intros _. exists s, e. split_and!; auto; lia.
  - by destruct (validate_inputs_cases g) as [(r & _ & ->)|(msg & -> & _)].
  - by destruct (validate_inputs_cases g) as [(r & _ & ->)|(msg & -> & _)].
  - by destruct (validate_inputs_cases g) as [(r & _ & ->)|(msg & -> & _)].
  - by destruct (validate_inputs_cases g) as [(r & _ & ->)|(msg & -> & _)].
  - by destruct (validate_inputs_cases g) as [(r & _ & ->)|(msg & -> & _)].
  - by destruct (validate_inputs_cases g) as [(r & _ & ->)|(msg & -> & _)].
  - intros Hs. unfold validate_inputs, validate_week. by rewrite Hs.
  - intros s Hs Hr. unfold validate_inputs, validate_week. rewrite Hs.
    destruct (s <? 1)%Z eqn:H1; destruct (18 <? s)%Z eqn:H2; simpl;
      try done. lia.
  - intros s e Hs He Hsr Her Hlt. unfold validate_inputs, validate_week.
    rewrite Hs, He.
    destruct (s <? 1)%Z eqn:H1; destruct (18 <? s)%Z eqn:H2; simpl; try lia.
    destruct (e <? 1)%Z eqn:H3; destruct (18 <? e)%Z eqn:H4; simpl; try lia.
    destruct (e <? s)%Z eqn:H5; [done|lia].
  - intros Hv driver. unfold start_scraping.
    set (g1 := set_status (py "Running...") (set_start_button false g)).
    destruct (validate_inputs_cases g) as [(r & _ & Hg)|(msg & Hg & Hm & Hn)];
      [by rewrite Hg in Hv|].
    destruct (validate_inputs_cases g1) as [(r & Hr & _)|(msg1 & Hg1 & _)].
    { destruct (Hn r). exact Hr. }
    rewrite Hg1, Hg. simpl. eexists. split_and!; try reflexivity.
    + (* the message depends on the two fields only *)
      clear -Hg Hg1. unfold validate_inputs in Hg, Hg1. simpl in Hg1.
      destruct (validate_week (start_week_edit g) _);
        [by injection Hg as <-; injection Hg1 as <-|].
      destruct (validate_week (end_week_edit g) _);
        [by injection Hg as <-; injection Hg1 as <-|].
      destruct (py_int (end_week_edit g)); [|done].
      destruct (py_int (start_week_edit g)); [|done].
      destruct (_ <? _)%Z; [|done].
      by injection Hg as <-; injection Hg1 as <-.
    + clear -Hg Hg1 Hm. unfold validate_inputs in Hg, Hg1. simpl in Hg1.
      destruct (validate_week (start_week_edit g) _);
        [injection Hg as <-; injection Hg1 as <-; exact Hm|].
      destruct (validate_week (end_week_edit g) _);
        [injection Hg as <-; injection Hg1 as <-; exact Hm|].
      destruct (py_int (end_week_edit g)); [|done].
      destruct (py_int (start_week_edit g)); [|done].
      destruct (_ <? _)%Z; [|done].
      injection Hg as <-; injection Hg1 as <-; exact Hm.
Qed.
End ValidationTheorems.

Lemma inf_has_no_digit : ~ @has_digit basic_latin (py "inf").
Proof.
  intros H. unfold has_digit in H.
  repeat (apply Exists_cons in H as [H|H]; [vm_compute in H; discriminate|]).
  inversion H.
Qed.

(** C1, counterexample: the [Spread] cell [inf] has no digit and is left
    as it is, but the coercion reads it as infinity: the week goes through
    and is exported. *)
Lemma spread_inf_is_coerced :
  ~ @has_digit basic_latin (py "inf")
  /\ @clean_spread basic_latin (py "inf") = py "inf"
  /\ (exists df, @week_frame basic_latin (page_env (py "inf")) 1 = Ok df
                 /\ get_column SPREAD df
                    = Some [CNum (NDec (-35) (-1)); CNum (NInf false)])
  /\ ~ @week_fails basic_latin demo_config (page_env (py "inf")) 1 empty_world
  /\ fst (@process_week basic_latin demo_config (page_env (py "inf")) 1
            empty_world) = Ok tt.
Proof.
  assert (Hw : @week_frame basic_latin (page_env (py "inf")) 1
    = Ok [(MATCHUP, [CStr (py "Jets vs Bills"); CStr (py "Rams vs Colts")]);
          (SPREAD, [CNum (NDec (-35) (-1)); CNum (NInf false)]);
          (TOTAL, [CNum (NDec 475 (-1)); CNum (NDec 44 0)]);
          (MONEYLINE, [CNum (NInt (-150)); CNum (NInt 130)])])
    by (vm_compute; reflexivity).
  split_and!.
  - exact inf_has_no_digit.
  - vm_compute. reflexivity.
  - eexists. split; [exact Hw|reflexivity].
  - intros (e & _ & He & _). rewrite Hw in He. discriminate.
  - by rewrite (process_week_ok _ _ _ _ _ Hw).
Qed.

Lemma coercion_failure_witness :
  @week_fails basic_latin demo_config (page_env (py "PK")) 1 empty_world.
Proof.
  refine (proj1 (@coercion_failure_fails_the_week basic_latin demo_config
                   (page_env (py "PK")))
            1%Z (demo_page (py "PK")) _ empty_world eq_refl eq_refl _).
  exists SPREAD, [CStr (py "-3.5"); CStr (py "PK")], (py "PK").
  split_and!; [by left|reflexivity|by right; left|reflexivity].
Defined.



Lemma cancel_weeks_ok v :
  (1 <= v < 3)%Z -> @week_ok basic_latin cancel_env v.
Proof.
  intros Hv. assert (v = 1 \/ v = 2)%Z as [->| ->] by lia;
    (split; [reflexivity|eexists; vm_compute; reflexivity]).
Defined.

Lemma run_stops_on_cancellation_witness :
  fst (@run basic_latin demo_config cancel_env 1 5 empty_world) = Completed.
Proof.
  destruct (@run_stops_on_cancellation basic_latin demo_config cancel_env
              1 5 3 empty_world) as [H _];
    [lia|exact cancel_weeks_ok|reflexivity|].
  rewrite H. reflexivity.
Defined.

Lemma run_lets_other_exceptions_escape_witness :
  exists e, fst (@run basic_latin demo_config no_spread_env 1 2 empty_world)
            = Escaped e /\ exn_cls e = KeyError.
Proof.
  exists (Exn KeyError (APOSTROPHE :: SPREAD ++ [APOSTROPHE])).
  destruct (proj1 (@run_lets_other_exceptions_escape basic_latin demo_config
                     no_spread_env)
              1%Z 2%Z 1%Z (Exn KeyError (APOSTROPHE :: SPREAD ++ [APOSTROPHE]))
              empty_world) as [H _];
    [lia|intros v Hv; lia|reflexivity|vm_compute; reflexivity
    |reflexivity|reflexivity|].
  rewrite H. split; reflexivity.
Defined.

Lemma export_writes_the_week_file_witness :
  exists sh,
    files (snd (@process_week basic_latin demo_config
                  (page_env (py "+7 (-105)")) 3 empty_world))
      !! [py "output"; py "2503.xlsx"] = Some sh.
Proof.
  eexists.
  refine (proj1 (proj2 (proj2 (@export_writes_the_week_file basic_latin
    demo_config (page_env (py "+7 (-105)")) 3%Z _ empty_world _)))).
  vm_compute. reflexivity.
Defined.

Lemma clean_matchup_twice_witness :
  ~ @time_prefixed basic_latin (@is_word basic_latin)
      (@clean_matchup basic_latin (py "7:00PMEST Team A vs Team B")).
Proof.
  apply (proj1 (@clean_matchup_twice basic_latin
                  (py "7:00PMEST Team A vs Team B"))).
  vm_compute. reflexivity.
Defined.

(** ** The shape of a run *)

Section ShapeFacts.
Context {U : Runtime} (cfg : config) (E : env).

Lemma loop_shape weeks :
  forall w, exists done rest r evs,
    weeks = done ++ rest /\ Forall (week_ok E) done
    /\ loop_ending cfg E rest r evs
    /\ loop cfg E weeks w
       = (r, let w1 := after_weeks cfg E done w in
             World (dirs w1) (files w1) (trace w1 ++ evs)).
Proof.
  induction weeks as [|week weeks IH]; intros w.
  - exists [], [], (Ok tt), []. simpl. split_and!; auto.
    destruct w; simpl. by rewrite app_nil_r.
  - destruct (scraping_active E week) eqn:Ha.
    + destruct (week_frame E week) as [df|e] eqn:Hf.
      * assert (Hok : week_ok E week) by (split; eauto).
        destruct (IH (exported cfg E week (frame_of E week) w))
          as (done & rest & r & evs & -> & Hdone & Hend & Hloop).
        exists (week :: done), rest, r, evs. split_and!; auto.
        rewrite loop_cons_ok by done. exact Hloop.
      * exists [], (week :: weeks), (Raise e), [EvGet (week_url cfg week)].
        split_and!; auto.
        -- simpl. rewrite Ha. eauto.
        -- by rewrite (loop_cons_raise _ _ _ _ e).
    + exists [], (week :: weeks), (Ok tt), [EvProgress STOPPED].
      split_and!; auto.
      * simpl. by rewrite Ha.
      * by rewrite loop_cons_stopped.
Qed.

Lemma run_unfold start_week end_week w0 r w1 :
  loop cfg E (py_range start_week (end_week + 1)) w0 = (r, w1) ->
  run cfg E start_week end_week w0
  = (fst (run_ending r),
     World (dirs w1) (files w1) (trace w1 ++ snd (run_ending r))).
Proof.
  intros H. unfold run. rewrite H. destruct r as [[]|e]; simpl.
  - done.
  - destruct (handled e); simpl; [|done]. by rewrite <- app_assoc.
Qed.

(** X1. Every run goes through a first part [done] of its weeks, exporting
    each of them, and leaves the loop in one of three ways: no week is
    left; the flag is found cleared at the next week, which gives the
    stopped-by-user progress signal; or the next week raises after its
    navigation. The outcome and the last signals follow from the way out;
    the directories and files are those after the weeks of [done], and the
    trace is the old one, the events of the weeks of [done], what the way
    out adds, and the error and finished signals. *)
Theorem run_shape start_week end_week w0 :
  exists done rest r evs,
    py_range start_week (end_week + 1) = done ++ rest
    /\ Forall (week_ok E) done
    /\ loop_ending cfg E rest r evs
    /\ run cfg E start_week end_week w0
       = (fst (run_ending r),
          let w1 := after_weeks cfg E done w0 in
          World (dirs w1) (files w1)
                (trace w0 ++ events_of cfg E done ++ evs
                 ++ snd (run_ending r))).
Proof.
  destruct (loop_shape (py_range start_week (end_week + 1)) w0)
    as (done & rest & r & evs & Hsplit & Hdone & Hend & Hloop).
  exists done, rest, r, evs. split_and!; auto.
  rewrite (run_unfold _ _ _ _ _ Hloop). simpl.
  rewrite trace_after_weeks. by rewrite <- !app_assoc.
Qed.
End ShapeFacts.

(** ** Files and directories of a run *)

Section FilesFacts.
Context {U : Runtime} (cfg : config) (E : env).

Lemma dirs_after_weeks_keep weeks w p :
  p ∈ dirs w -> p ∈ dirs (after_weeks cfg E weeks w).
Proof.
  revert w. induction weeks as [|v weeks IH]; intros w Hp; [done|].
  unfold after_weeks in *. simpl. apply IH. simpl. set_solver.
Qed.

Lemma dirs_after_weeks_new weeks w p :
  p ∈ dirs (after_weeks cfg E weeks w) ->
  p ∈ dirs w \/ p `prefix_of` OUTPUT_PATH cfg.
Proof.
  assert (Hanc : forall (d q : path), d ∈ ancestors q -> d `prefix_of` q).
  { intros d q. revert d. induction q as [|part q IHq]; intros d; simpl.
    - intros ->%list_elem_of_singleton. done.
    - intros [->|Hd]%elem_of_cons; [apply prefix_nil|].
      apply list_elem_of_fmap in Hd as (d' & -> & Hd').
      apply prefix_cons. auto. }
  revert w. induction weeks as [|v weeks IH]; intros w; [by left|].
  unfold after_weeks in *. simpl. intros Hp. apply IH in Hp as [Hp|Hp];
    [|by right].
  simpl in Hp. apply elem_of_union in Hp as [Hp|Hp]; [by left|right].
  apply elem_of_list_to_set in Hp. auto.
Qed.

(** Where a file of the world after some exported weeks comes from. *)
Lemma files_after_weeks_origin weeks w p sh :
  files (after_weeks cfg E weeks w) !! p = Some sh ->
  files w !! p = Some sh
  \/ exists v, v ∈ weeks /\ p = output_file cfg (now_year E v) v
               /\ sh = to_excel (frame_of E v) false true.
Proof.
  revert w. induction weeks as [|v weeks IH]; intros w; [by left|].
  unfold after_weeks in *. simpl. intros Hp.
  apply IH in Hp as [Hp|(v' & Hv' & -> & ->)].
  - simpl in Hp. rewrite lookup_insert in Hp. case_decide as Hd.
    + right. exists v. split_and!; [by left|done|congruence].
    + by left.
  - right. exists v'. split_and!; [by right|done|done].
Qed.

(** A week whose path no later week of the list shares keeps its file. *)
Lemma files_after_weeks_last weeks w v :
  v ∈ weeks ->
  (forall v', v' ∈ weeks ->
     output_file cfg (now_year E v') v' = output_file cfg (now_year E v) v ->
     v' = v) ->
  files (after_weeks cfg E weeks w) !! output_file cfg (now_year E v) v
  = Some (to_excel (frame_of E v) false true).
Proof.
  revert w. induction weeks as [|v0 weeks IH]; intros w Hv Hinj;
    [by inversion Hv|].
  unfold after_weeks in *. simpl.
  destruct (decide (v ∈ weeks)) as [Hin|Hnin].
  - apply IH; [done|]. intros v' Hv'. apply Hinj. by right.
  - apply elem_of_cons in Hv as [->|Hv]; [|done].
    assert (Hkeep : forall ws w', 
      (forall v', v' ∈ ws -> output_file cfg (now_year E v') v'
                             <> output_file cfg (now_year E v0) v0) ->
      files (foldl (fun w week => exported cfg E week (frame_of E week) w)
               w' ws) !! output_file cfg (now_year E v0) v0
      = files w' !! output_file cfg (now_year E v0) v0).
    { clear. intros ws. induction ws as [|a ws IHws]; intros w' Hne; [done|].
      simpl. rewrite IHws by (intros; apply Hne; by right). simpl.
      rewrite lookup_insert_ne; [done|]. apply Hne. by left. }
    rewrite Hkeep.
    + simpl. apply lookup_insert_eq.
    + intros v' Hv' Heq. assert (v' = v0) by (apply Hinj; [by right|done]).
      by subst.
Qed.

Lemma two_digits_inj n n' :
  (0 <= n < 100)%Z -> (0 <= n' < 100)%Z ->
  two_digits n = two_digits n' -> n = n'.
Proof.
  intros Hn Hn'. unfold two_digits. intros [= H1 H2].
  pose proof (Z.div_mod n 10 ltac:(lia)).
  pose proof (Z.div_mod n' 10 ltac:(lia)).
  pose proof (Z.mod_pos_bound n 10 ltac:(lia)).
  pose proof (Z.mod_pos_bound n' 10 ltac:(lia)).
  pose proof (Z.div_pos n 10 ltac:(lia) ltac:(lia)).
  pose proof (Z.div_pos n' 10 ltac:(lia) ltac:(lia)).
  apply Z2N.inj in H1; [|lia..]. apply Z2N.inj in H2; [|lia..]. lia.
Qed.

Lemma output_file_inj y v v' :
  (0 <= v < 100)%Z -> (0 <= v' < 100)%Z ->
  output_file cfg y v = output_file cfg y v' -> v = v'.
Proof.
  intros Hv Hv'. unfold output_file, output_name. intros H.
  apply app_inv_head in H. injection H as H.
  apply app_inv_head in H. apply app_inv_tail in H.
  rewrite !fmt02_two_digits in H by done. by apply two_digits_inj in H.
Qed.
End FilesFacts.

Section RunWorldTheorems.
Context {U : Runtime} (cfg : config) (E : env).

Lemma run_world start_week end_week w0 :
  exists done rest,
    py_range start_week (end_week + 1) = done ++ rest
    /\ Forall (week_ok E) done
    /\ dirs (snd (run cfg E start_week end_week w0))
       = dirs (after_weeks cfg E done w0)
    /\ files (snd (run cfg E start_week end_week w0))
       = files (after_weeks cfg E done w0).
Proof.
  destruct (loop_shape cfg E (py_range start_week (end_week + 1)) w0)
    as (done & rest & r & evs & Hsplit & Hdone & Hend & Hloop).
  exists done, rest. split_and!; auto;
    by rewrite (run_unfold _ _ _ _ _ _ _ Hloop).
Qed.

(** X2. A run removes nothing: a path that holds a file before the run
    holds one after it, a directory that exists before exists after, and a
    directory that the run creates is [OUTPUT_PATH] or one of its
    ancestors. *)
Theorem run_keeps_what_exists start_week end_week w0 :
  let w' := snd (run cfg E start_week end_week w0) in
  (forall p, is_Some (files w0 !! p) -> is_Some (files w' !! p))
  /\ (forall d, d ∈ dirs w0 -> d ∈ dirs w')
  /\ (forall d, d ∈ dirs w' ->
        d ∈ dirs w0 \/ d `prefix_of` OUTPUT_PATH cfg).
Proof.
  intros w'. subst w'.
  destruct (run_world start_week end_week w0)
    as (done & rest & _ & _ & Hd & Hf).
  rewrite Hd, Hf. split_and!.
  - intros p. apply files_after_weeks_keep.
  - intros d. apply dirs_after_weeks_keep.
  - intros d. apply dirs_after_weeks_new.
Qed.

(** X3. A file found after a run was there before with the same content,
    or it is the week file of a week of the range whose frame was built,
    and holds the sheet of that frame. *)
Theorem run_writes_only_week_files start_week end_week w0 p sh :
  files (snd (run cfg E start_week end_week w0)) !! p = Some sh ->
  files w0 !! p = Some sh
  \/ exists v df,
       (start_week <= v <= end_week)%Z
       /\ week_frame E v = Ok df
       /\ p = OUTPUT_PATH cfg
              ++ [fmt02 (now_year E v - 2000) ++ fmt02 v ++ py ".xlsx"]
       /\ sh = to_excel df false true.
Proof.
  destruct (run_world start_week end_week w0)
    as (done & rest & Hsplit & Hdone & _ & Hf).
  rewrite Hf. intros [Hp|(v & Hv & -> & ->)]%files_after_weeks_origin;
    [by left|right].
  rewrite Forall_forall in Hdone. destruct (Hdone v Hv) as [_ [df Hdf]].
  exists v, df. split_and!; [| |done|reflexivity|unfold frame_of; by rewrite Hdf].
  all: assert (Hin : v ∈ py_range start_week (end_week + 1))
    by (rewrite Hsplit; apply elem_of_app; by left).
  all: apply elem_of_py_range in Hin; lia.
Qed.

Lemma run_all_ok start_week end_week w0 :
  (forall v, (start_week <= v <= end_week)%Z -> week_ok E v) ->
  let weeks := py_range start_week (end_week + 1) in
  let w1 := after_weeks cfg E weeks w0 in
  run cfg E start_week end_week w0
  = (Completed,
     World (dirs w1) (files w1)
           (trace w0 ++ events_of cfg E weeks ++ [EvFinished])).
Proof.
  intros Hok weeks w1.
  assert (Hall : Forall (week_ok E) weeks).
  { apply py_range_ok. intros v Hv. apply Hok. lia. }
  assert (Hloop : loop cfg E weeks w0 = (Ok tt, w1)).
  { rewrite <- (app_nil_r weeks), loop_app_ok by done. done. }
  rewrite (run_unfold _ _ _ _ _ _ _ Hloop). simpl.
  subst w1. rewrite trace_after_weeks. by rewrite <- !app_assoc.
Qed.

(** X4. When every week of the range is entered and its frame is built,
    the run completes: the trace gains the events of all the weeks in
    order and then the finished signal, every week has its file, and
    [OUTPUT_PATH] exists. *)
Theorem run_completes_every_week start_week end_week w0 :
  (forall v, (start_week <= v <= end_week)%Z -> week_ok E v) ->
  let weeks := py_range start_week (end_week + 1) in
  let w1 := after_weeks cfg E weeks w0 in
  run cfg E start_week end_week w0
  = (Completed,
     World (dirs w1) (files w1)
           (trace w0 ++ events_of cfg E weeks ++ [EvFinished]))
  /\ (forall v, (start_week <= v <= end_week)%Z ->
        is_Some (files w1 !! output_file cfg (now_year E v) v)
        /\ OUTPUT_PATH cfg ∈ dirs w1).
Proof.
  intros Hok weeks w1. split; [by apply run_all_ok|].
  intros v Hv. assert (Hin : v ∈ weeks) by (apply elem_of_py_range; lia).
  split; [by apply files_after_weeks|].
  apply dirs_after_weeks. intros H. rewrite H in Hin. by inversion Hin.
Qed.

(** X5. With the end week before the start week the run visits no page,
    writes nothing, and only emits the finished signal. *)
Theorem run_on_empty_range start_week end_week w0 :
  (end_week < start_week)%Z ->
  run cfg E start_week end_week w0
  = (Completed, World (dirs w0) (files w0) (trace w0 ++ [EvFinished])).
Proof.
  intros Hlt. unfold run, py_range.
  rewrite seqZ_nil by lia. reflexivity.
Qed.

(** X6. Over weeks between 0 and 99 and within one year, when every week
    goes through, the file of each week of the range holds the sheet of
    that week's own frame at the end of the run: no other week writes to
    it. *)
Theorem run_gives_each_week_its_file start_week end_week y w0 :
  (0 <= start_week)%Z -> (end_week < 100)%Z ->
  (forall v, (start_week <= v <= end_week)%Z ->
     week_ok E v /\ now_year E v = y) ->
  forall v, (start_week <= v <= end_week)%Z ->
    files (snd (run cfg E start_week end_week w0))
      !! (OUTPUT_PATH cfg ++ [fmt02 (y - 2000) ++ fmt02 v ++ py ".xlsx"])
    = Some (to_excel (frame_of E v) false true).
Proof.
  intros Hs He Hok v Hv.
  rewrite run_all_ok by (intros; by apply Hok). simpl.
  assert (Hy : now_year E v = y) by by apply Hok.
  change (OUTPUT_PATH cfg ++ [fmt02 (y - 2000) ++ fmt02 v ++ py ".xlsx"])
    with (output_file cfg y v).
  rewrite <- Hy. apply files_after_weeks_last.
  - apply elem_of_py_range. lia.
  - intros v' Hv'%elem_of_py_range Heq.
    assert (now_year E v' = y) as Hy' by (apply Hok; lia).
    rewrite Hy, Hy' in Heq. apply output_file_inj in Heq; [done|lia..].
Qed.
End RunWorldTheorems.

(** ** More on the cleaning of the cells *)

Section MoneylineFacts.
(** X7. The [Moneyline] cleaning replaces every minus sign U+2212 by the
    hyphen and changes no other character: no U+2212 is left, the length
    is kept, cleaning twice is cleaning once, and a text without U+2212 is
    unchanged. *)
Theorem clean_moneyline_replaces_minus (x : str) :
  clean_moneyline x
  = ((fun c => if (c =? MINUS_SIGN)%N then 45%N else c) <$> x)
  /\ (MINUS_SIGN ∉ clean_moneyline x)
  /\ length (clean_moneyline x) = length x
  /\ clean_moneyline (clean_moneyline x) = clean_moneyline x
  /\ (MINUS_SIGN ∉ x -> clean_moneyline x = x).
Proof.
  assert (Hmap : forall y, clean_moneyline y
    = ((fun c => if (c =? MINUS_SIGN)%N then 45%N else c) <$> y)).
  { intros y. unfold clean_moneyline, str_replace1.
    induction y as [|c y IH]; [done|].
    rewrite bind_cons, fmap_cons, IH.
    by destruct (c =? MINUS_SIGN)%N. }
  assert (Hfix : forall y, MINUS_SIGN ∉ y -> clean_moneyline y = y).
  { intros y Hy. rewrite Hmap. induction y as [|c y IH]; [done|].
    csimpl. apply not_elem_of_cons in Hy as [Hc Hy]. rewrite IH by done.
    destruct (c =? MINUS_SIGN)%N eqn:Ec; [|done].
    apply N.eqb_eq in Ec. congruence. }
  assert (Hnot : MINUS_SIGN ∉ clean_moneyline x).
  { rewrite Hmap. intros (c & Hc & _)%list_elem_of_fmap.
    destruct (c =? MINUS_SIGN)%N eqn:Ec; [done|].
    apply N.eqb_neq in Ec. congruence. }
  split_and!; auto.
  by rewrite Hmap, length_fmap.
Qed.
End MoneylineFacts.

Section MatchupMore.
Context {U : Runtime}.

(** X8. The [Matchup] cleaning only removes from the front: the result
    is a suffix of the text. A text that does not start with a digit, or
    that has fewer than 8 characters, is unchanged. *)
Theorem clean_matchup_keeps_a_suffix (x : str) :
  clean_matchup x `suffix_of` x
  /\ (forall c, head x = Some c -> is_digit c = false -> clean_matchup x = x)
  /\ (length x < 8 -> clean_matchup x = x)%nat.
Proof.
  rewrite clean_matchup_unfold.
  destruct (match_at MATCHUP_RE 0 false x) as [n|] eqn:Hm.
  2:{ split_and!; auto. }
  pose proof Hm as Hm'.
  apply match_at_matchup in Hm'
    as (h & m & ap & v & Hx & ((Hh1 & Hh2) & Hh & Hm1 & _) & Hz & Hn).
  split_and!.
  - apply suffix_drop.
  - intros c Hc Hd. rewrite Hx in Hc. unfold clock in Hc.
    destruct h as [|c0 h]; simpl in *; [lia|].
    injection Hc as ->. apply Forall_cons in Hh as [Hh _]. congruence.
  - intros Hlen. rewrite Hx in Hlen. unfold clock in Hlen.
    pose proof (greedy_len_le CWord (Some 3) v).
    rewrite !length_app in Hlen. simpl in Hlen. rewrite length_app in Hlen.
    simpl in Hlen. lia.
Qed.
End MatchupMore.

Section NumberClosedForms.
Context {U : Runtime}.

Lemma sign_not_digit c : is_sign c = true -> is_digit c = false.
Proof.
  unfold is_sign. intros [H|H]%orb_true_iff; apply N.eqb_eq in H; by subst.
Qed.

Lemma exec_opt_total {R} r (k : nat -> str -> option R) :
  (forall p s', is_Some (k p s')) ->
  forall p s', is_Some (exec (ROpt r) p s' k).
Proof.
  intros Hk p s'. cbn [exec]. destruct (exec r p s' k); [eauto|apply Hk].
Qed.

Lemma exec_total {R} (k : nat -> str -> option R) pos s :
  (forall p s', is_Some (k p s')) ->
  exec TOTAL_RE pos s k
  = match number_len s with
    | Some n => k (pos + n)%nat (drop n s)
    | None => None
    end.
Proof.
  intros Hk. unfold TOTAL_RE, number_len.
  change (exec (RSeq ?a ?b) pos s k)
    with (rep CDigit 1 None pos s (fun p s' => exec b p s' k)).
  rewrite rep_total by (by apply exec_opt_total).
  case_decide as Hd; [|done].
  set (d := greedy_len CDigit None s) in *.
  rewrite <- (drop_drop s (fraction_len (drop d s)) d).
  cbn [exec]. destruct (drop d s) as [|c t] eqn:Ht.
  - simpl. by rewrite Nat.add_0_r.
  - cbn [in_cset fraction_len]. change (ch ".") with 46%N.
    destruct (c =? 46)%N; cbn [andb].
    + rewrite (rep_total _ _ Hk). case_decide as Hd2.
      * rewrite bool_decide_eq_true_2 by done.
        destruct (Hk (S (pos + d) + greedy_len CDigit None t)%nat
                     (drop (greedy_len CDigit None t) t)) as [y Hy].
        rewrite Hy. rewrite <- Hy. simpl. f_equal. lia.
      * rewrite bool_decide_eq_false_2 by done. simpl.
        by rewrite Nat.add_0_r.
    + simpl. by rewrite Nat.add_0_r.
Qed.

Lemma exec_spread {R} (k : nat -> str -> option R) pos s :
  (forall p s', is_Some (k p s')) ->
  exec SPREAD_RE pos s k
  = match signed_number_len s with
    | Some n => k (pos + n)%nat (drop n s)
    | None => None
    end.
Proof.
  intros Hk. unfold SPREAD_RE.
  change (exec (RSeq (ROpt ?a) ?b) pos s k)
    with (match exec a pos s (fun p s' => exec b p s' k) with
          | Some x => Some x
          | None => exec b pos s k
          end).
  unfold signed_number_len. destruct s as [|c s].
  - cbn [exec]. by rewrite (exec_total k).
  - cbn [exec].
    change (in_cset (COneOf [ch "-"; ch "+"]) c) with
      ((c =? 45)%N || ((c =? 43)%N || false)).
    rewrite orb_false_r. fold (is_sign c).
    destruct (is_sign c) eqn:Hc.
    + rewrite !(exec_total k) by done.
      destruct (number_len s) as [n|] eqn:Hn.
      * destruct (Hk (S pos + n)%nat (drop n s)) as [y Hy]. rewrite Hy.
        rewrite <- Hy. simpl. f_equal. lia.
      * done.
    + by rewrite !(exec_total k).
Qed.

Lemma match_at_total pos s : match_at TOTAL_RE pos false s = number_len s.
Proof.
  unfold match_at. rewrite exec_total by (intros; simpl; eauto).
  destruct (number_len s); simpl; [f_equal; lia|done].
Qed.

Lemma match_at_spread pos s :
  match_at SPREAD_RE pos false s = signed_number_len s.
Proof.
  unfold match_at. rewrite exec_spread by (intros; simpl; eauto).
  destruct (signed_number_len s); simpl; [f_equal; lia|done].
Qed.
End NumberClosedForms.

Section NumberSearch.
Context {U : Runtime}.

Lemma greedy_len_take cs s m :
  greedy_len cs None (take m s) = (m `min` greedy_len cs None s)%nat.
Proof.
  revert m. induction s as [|c s IH]; intros [|m]; simpl; try done.
  destruct (in_cset cs c); simpl; [|done]. by rewrite IH.
Qed.

Lemma greedy_len_no_digit c s :
  is_digit c = false -> greedy_len CDigit None (c :: s) = O.
Proof. intros H. simpl. by rewrite H. Qed.

Lemma number_len_bound s n : number_len s = Some n -> (1 <= n <= length s)%nat.
Proof.
  unfold number_len. case_decide as Hd; [|done]. intros [= <-].
  pose proof (greedy_len_le CDigit None s) as Hle.
  set (d := greedy_len CDigit None s) in *.
  assert (fraction_len (drop d s) <= length (drop d s))%nat.
  { destruct (drop d s) as [|c t]; simpl; [lia|].
    pose proof (greedy_len_le CDigit None t).
    destruct ((c =? 46)%N && _); simpl; lia. }
  rewrite length_drop in *. lia.
Qed.

Lemma fraction_len_take t :
  fraction_len (take (fraction_len t) t) = fraction_len t.
Proof.
  destruct t as [|c t]; [done|]. simpl.
  destruct (c =? 46)%N eqn:Hc; simpl; [|done].
  destruct (bool_decide (1 <= greedy_len CDigit None t)%nat) eqn:Hg; [|done].
  simpl. rewrite Hc, greedy_len_take, Nat.min_id. simpl. by rewrite Hg.
Qed.

(** The number found is a number as a whole. *)
Lemma number_len_take s n :
  number_len s = Some n -> number_len (take n s) = Some n.
Proof.
  unfold number_len. case_decide as Hd; [|done]. intros [= <-].
  set (d := greedy_len CDigit None s) in *.
  set (f := fraction_len (drop d s)).
  rewrite greedy_len_take. fold d.
  replace ((d + f) `min` d)%nat with d by lia.
  rewrite decide_True by done. f_equal. f_equal.
  rewrite <- take_drop_commute. apply fraction_len_take.
Qed.

Lemma signed_number_len_bound s n :
  signed_number_len s = Some n -> (1 <= n <= length s)%nat.
Proof.
  destruct s as [|c s]; [done|]. simpl.
  destruct (is_sign c).
  - destruct (number_len s) as [n'|] eqn:Hn.
    + intros [= <-]. apply number_len_bound in Hn. simpl. lia.
    + intros H%number_len_bound. done.
  - intros H%number_len_bound. done.
Qed.

Lemma signed_number_len_take s n :
  signed_number_len s = Some n -> signed_number_len (take n s) = Some n.
Proof.
  destruct s as [|c s]; [done|]. simpl.
  destruct (is_sign c) eqn:Hc.
  - destruct (number_len s) as [n'|] eqn:Hn.
    + intros [= <-]. simpl. rewrite Hc. by rewrite (number_len_take _ _ Hn).
    + unfold number_len.
      rewrite greedy_len_no_digit by by apply sign_not_digit.
      by rewrite decide_False by lia.
  - intros Hn. pose proof (number_len_bound _ _ Hn) as Hb.
    pose proof (number_len_take _ _ Hn) as Ht.
    destruct n as [|n]; [lia|]. simpl in *. by rewrite Hc.
Qed.

Lemma search_from_total pos s :
  search_from TOTAL_RE pos s
  = match number_len s with
    | Some n => Some (take n s)
    | None =>
        match s with
        | [] => None
        | _ :: s' => search_from TOTAL_RE (S pos) s'
        end
    end.
Proof. destruct s; cbn [search_from]; by rewrite match_at_total. Qed.

Lemma search_from_spread pos s :
  search_from SPREAD_RE pos s
  = match signed_number_len s with
    | Some n => Some (take n s)
    | None =>
        match s with
        | [] => None
        | _ :: s' => search_from SPREAD_RE (S pos) s'
        end
    end.
Proof. destruct s; cbn [search_from]; by rewrite match_at_spread. Qed.

Lemma number_len_digit c s :
  is_digit c = true -> is_Some (number_len (c :: s)).
Proof.
  intros Hc. unfold number_len. cbn [greedy_len in_cset]. rewrite Hc.
  cbn [andb hi_allows]. case_decide; [eauto|lia].
Qed.

Lemma signed_number_len_digit c s :
  is_digit c = true -> is_Some (signed_number_len (c :: s)).
Proof.
  intros Hc. simpl. destruct (is_sign c) eqn:Hs.
  - apply sign_not_digit in Hs. congruence.
  - by apply number_len_digit.
Qed.

(** The search finds the number at the head of some suffix, as soon as
    the text holds a digit. *)
Lemma search_total_found x :
  has_digit x ->
  forall pos, exists pre s n,
    x = pre ++ s /\ number_len s = Some n
    /\ search_from TOTAL_RE pos x = Some (take n s).
Proof.
  induction 1 as [c x Hc|c x Hx IH]; intros pos;
    rewrite search_from_total.
  - destruct (number_len_digit c x Hc) as [n Hn]. rewrite Hn.
    by exists [], (c :: x), n.
  - destruct (number_len (c :: x)) as [n|] eqn:Hn.
    + by exists [], (c :: x), n.
    + destruct (IH (S pos)) as (pre & s & n & -> & Hs & Hf).
      exists (c :: pre), s, n. by rewrite Hf.
Qed.

Lemma search_spread_found x :
  has_digit x ->
  forall pos, exists pre s n,
    x = pre ++ s /\ signed_number_len s = Some n
    /\ search_from SPREAD_RE pos x = Some (take n s).
Proof.
  induction 1 as [c x Hc|c x Hx IH]; intros pos;
    rewrite search_from_spread.
  - destruct (signed_number_len_digit c x Hc) as [n Hn]. rewrite Hn.
    by exists [], (c :: x), n.
  - destruct (signed_number_len (c :: x)) as [n|] eqn:Hn.
    + by exists [], (c :: x), n.
    + destruct (IH (S pos)) as (pre & s & n & -> & Hs & Hf).
      exists (c :: pre), s, n. by rewrite Hf.
Qed.
End NumberSearch.

Section NumberTheorems.
Context {U : Runtime}.

Lemma greedy_take_length cs s :
  length (take (greedy_len cs None s) s) = greedy_len cs None s.
Proof. rewrite length_take. pose proof (greedy_len_le cs None s). lia. Qed.

Lemma take_plus (l : str) a b :
  take (a + b) l = take a l ++ take b (drop a l).
Proof.
  revert l. induction a as [|a IH]; intros [|c l]; simpl; try done.
  - by rewrite take_nil.
  - by rewrite IH.
Qed.

Lemma number_len_numeral s n : number_len s = Some n -> numeral (take n s).
Proof.
  unfold number_len. case_decide as Hd; [|done]. intros [= <-].
  set (d := greedy_len CDigit None s) in *.
  exists (take d s), (take (fraction_len (drop d s)) (drop d s)).
  split_and!.
  - apply take_plus.
  - intros H. apply (f_equal length) in H.
    unfold d in H. rewrite greedy_take_length in H. simpl in H. fold d in H.
    lia.
  - apply (greedy_len_Forall CDigit).
  - destruct (drop d s) as [|c t]; [by left|]. simpl.
    destruct (c =? 46)%N eqn:Hc; simpl; [|by left].
    destruct (bool_decide (1 <= greedy_len CDigit None t)%nat) eqn:Hg;
      [|by left].
    right. apply N.eqb_eq in Hc as ->. apply bool_decide_eq_true in Hg.
    exists (take (greedy_len CDigit None t) t). split_and!; [done| |].
    + intros H. apply (f_equal length) in H.
      rewrite greedy_take_length in H. simpl in H. lia.
    + apply (greedy_len_Forall CDigit).
Qed.

(** X9. For a cell with a decimal digit, the [Spread] cleaning returns a
    piece of the cell made of an optional sign [-] or [+] and a numeral
    (digits, then possibly a point and digits), and the [Total] cleaning
    returns a piece of the cell that is a numeral. *)
Theorem cleaning_extracts_a_numeral (x : str) :
  has_digit x ->
  (exists pre sg g post,
     x = pre ++ sg ++ g ++ post
     /\ (sg = [] \/ sg = py "-" \/ sg = py "+")
     /\ numeral g /\ clean_spread x = sg ++ g)
  /\ (exists pre g post,
        x = pre ++ g ++ post /\ numeral g /\ clean_total x = g).
Proof.
  intros Hx. split.
  - destruct (search_spread_found x Hx 0) as (pre & s & n & -> & Hn & Hf).
    unfold clean_spread, re_search. rewrite Hf.
    destruct s as [|c s]; [done|]. simpl in Hn.
    destruct (is_sign c) eqn:Hc.
    + destruct (number_len s) as [n'|] eqn:Hn'.
      * injection Hn as <-. apply number_len_numeral in Hn'.
        exists pre, [c], (take n' s), (drop n' s).
        rewrite take_drop. split_and!; [done| |done|done].
        unfold is_sign in Hc.
        apply orb_true_iff in Hc as [->%N.eqb_eq| ->%N.eqb_eq];
          [right; by left|right; by right].
      * unfold number_len in Hn.
        rewrite greedy_len_no_digit in Hn by by apply sign_not_digit.
        by rewrite decide_False in Hn by lia.
    + apply number_len_numeral in Hn.
      exists pre, [], (take n (c :: s)), (drop n (c :: s)).
      rewrite take_drop. split_and!; [done|by left|done|done].
  - destruct (search_total_found x Hx 0) as (pre & s & n & -> & Hn & Hf).
    unfold clean_total, re_search. rewrite Hf.
    apply number_len_numeral in Hn.
    exists pre, (take n s), (drop n s). by rewrite take_drop.
Qed.

Lemma has_digit_dec x : {has_digit x} + {~ has_digit x}.
Proof. unfold has_digit. apply Exists_dec. intros c. apply _. Qed.

(** X10. The [Spread] and the [Total] cleaning are idempotent: cleaning
    a cleaned cell changes nothing. *)
Theorem number_cleaning_is_idempotent (x : str) :
  clean_spread (clean_spread x) = clean_spread x
  /\ clean_total (clean_total x) = clean_total x.
Proof.
  destruct (has_digit_dec x) as [Hx|Hx].
  2:{ rewrite (clean_spread_no_digit x Hx), (clean_total_no_digit x Hx).
      split; [by apply clean_spread_no_digit|by apply clean_total_no_digit]. }
  split.
  - destruct (search_spread_found x Hx 0) as (pre & s & n & -> & Hn & Hf).
    unfold clean_spread at 2 3. unfold re_search. rewrite Hf.
    unfold clean_spread, re_search. rewrite search_from_spread.
    rewrite (signed_number_len_take _ _ Hn). by rewrite take_take, Nat.min_id.
  - destruct (search_total_found x Hx 0) as (pre & s & n & -> & Hn & Hf).
    unfold clean_total at 2 3. unfold re_search. rewrite Hf.
    unfold clean_total, re_search. rewrite search_from_total.
    rewrite (number_len_take _ _ Hn). by rewrite take_take, Nat.min_id.
Qed.
End NumberTheorems.

(** ** Cleaned numbers and the coercion *)

Section CoercionAccepts.
Context {U : Runtime}.

Lemma is_digit_ascii c :
  (c < 128)%N -> is_digit c = bool_decide (is_Some (ascii_digit c)).
Proof.
  intros Hc. unfold is_digit, ascii_digit.
  apply N.ltb_lt in Hc. rewrite Hc.
  destruct ((48 <=? c)%N && (c <=? 57)%N); symmetry.
  - apply bool_decide_eq_true. eauto.
  - apply bool_decide_eq_false. by intros [? ?].
Qed.

Lemma read_digits_greedy s :
  is_ascii s -> forall acc cnt, exists v,
    read_digits acc cnt s
    = (v, (cnt + greedy_len CDigit None s)%nat,
       drop (greedy_len CDigit None s) s).
Proof.
  induction 1 as [|c s Hc Hs IH]; intros acc cnt; simpl.
  - exists acc. by rewrite Nat.add_0_r.
  - rewrite (is_digit_ascii c Hc).
    destruct (ascii_digit c) as [d|] eqn:Hd.
    + rewrite bool_decide_eq_true_2 by eauto. simpl.
      destruct (IH (10 * acc + d)%Z (S cnt)) as [v Hv]. exists v.
      rewrite Hv. f_equal. f_equal. lia.
    + rewrite bool_decide_eq_false_2 by (by intros [? ?]). simpl.
      exists acc. by rewrite Nat.add_0_r.
Qed.

Lemma digit_not_blank c : is_digit c = true -> (c < 128)%N -> c_isspace c = false.
Proof.
  intros Hd Hc. rewrite is_digit_ascii in Hd by done.
  apply bool_decide_eq_true in Hd as [d Hd]. unfold ascii_digit in Hd.
  destruct ((48 <=? c)%N && (c <=? 57)%N) eqn:Hr; [|done].
  apply andb_true_iff in Hr as [H1%N.leb_le H2%N.leb_le].
  unfold c_isspace. apply orb_false_iff. split.
  - apply andb_false_iff. right. apply N.leb_gt. lia.
  - apply N.eqb_neq. lia.
Qed.

(** A text of at most 17 characters that is a number as a whole is read
    by the coercion as it stands. *)
Lemma parse_unsigned s s0 negative :
  is_ascii s -> number_len s = Some (length s) -> (length s <= 17)%nat ->
  exists n, finite n /\ read_number negative s0 s = Some n.
Proof.
  intros Hs Hn Hlen. unfold number_len in Hn. case_decide as Hd; [|done].
  injection Hn as Hn. unfold read_number.
  destruct (read_digits_greedy s Hs 0%Z 0%nat) as [ip Hip]. rewrite Hip.
  set (d := greedy_len CDigit None s) in *.
  pose proof (greedy_len_le CDigit None s) as Hle. fold d in Hle.
  assert (Hf : fraction_len (drop d s) = length (drop d s))
    by (rewrite length_drop; lia).
  assert (Hs2 : is_ascii (drop d s)) by (by apply Forall_drop).
  assert (Hl2 : (d + length (drop d s) = length s)%nat)
    by (rewrite length_drop; lia).
  destruct (drop d s) as [|c t] eqn:Ht.
  - rewrite decide_False by lia. cbn [skip_blanks].
    rewrite bool_decide_eq_true_2 by lia. simpl.
    eexists. split; [|done]. by eexists.
  - simpl in Hf. destruct (c =? 46)%N eqn:Hc; simpl in Hf; [|lia].
    destruct (bool_decide (1 <= greedy_len CDigit None t)%nat) eqn:Hg;
      [|lia].
    apply bool_decide_eq_true in Hg. injection Hf as Hf.
    apply Forall_cons in Hs2 as [_ Hst].
    destruct (read_digits_greedy t Hst ip 0%nat) as [m Hm]. rewrite Hm.
    rewrite Hf, drop_all. rewrite decide_False by lia. cbn [skip_blanks].
    simpl in Hl2.
    rewrite bool_decide_eq_true_2 by lia. simpl.
    eexists. split; [|done]. by eexists.
Qed.

Lemma number_head_digit s n :
  number_len s = Some n -> exists c s', s = c :: s' /\ is_digit c = true.
Proof.
  unfold number_len. case_decide as Hd; [|done]. intros _.
  destruct s as [|c s]; simpl in Hd; [lia|].
  destruct (is_digit c) eqn:Hc; simpl in Hd; [eauto|lia].
Qed.

Lemma parse_decimal_number g :
  is_ascii g -> number_len g = Some (length g) -> (length g <= 17)%nat ->
  exists n, finite n /\ parse_decimal g = Some n.
Proof.
  intros Hg Hn Hlen.
  destruct (number_head_digit _ _ Hn) as (c & g' & -> & Hc).
  pose proof Hg as Hg'. apply Forall_cons in Hg' as [Hc128 _].
  unfold parse_decimal. cbn [skip_blanks].
  rewrite (digit_not_blank c Hc Hc128).
  assert (Hs : read_sign (c :: g') = (false, c :: g')).
  { unfold read_sign. destruct (c =? 45)%N eqn:H1.
    { apply N.eqb_eq in H1. by subst. }
    destruct (c =? 43)%N eqn:H2; [|done].
    apply N.eqb_eq in H2. by subst. }
  rewrite Hs. by apply parse_unsigned.
Qed.

Lemma parse_decimal_signed_number g :
  is_ascii g -> signed_number_len g = Some (length g) ->
  (length g <= 17)%nat ->
  exists n, finite n /\ parse_decimal g = Some n.
Proof.
  intros Hg Hn Hlen. destruct g as [|c g']; [done|]. simpl in Hn.
  destruct (is_sign c) eqn:Hc; [|by apply parse_decimal_number].
  destruct (number_len g') as [n'|] eqn:Hn'.
  2:{ unfold number_len in Hn.
      rewrite greedy_len_no_digit in Hn by by apply sign_not_digit.
      by rewrite decide_False in Hn by lia. }
  injection Hn as ->. apply Forall_cons in Hg as [_ Hg'].
  unfold parse_decimal. unfold is_sign in Hc.
  simpl in Hlen.
  apply orb_true_iff in Hc as [->%N.eqb_eq| ->%N.eqb_eq];
    (apply parse_unsigned; [done|done|lia]).
Qed.

Lemma to_numeric_str_parsed g n :
  parse_decimal g = Some n -> to_numeric_str g = Some n.
Proof.
  intros H. unfold to_numeric_str. rewrite H. destruct g; [|done].
  by vm_compute in H.
Qed.

Lemma cleaned_number_accepted (x : str) :
  is_ascii x -> has_digit x -> (length x <= 17)%nat ->
  (exists n, finite n /\ to_numeric_str (clean_spread x) = Some n)
  /\ (exists n, finite n /\ to_numeric_str (clean_total x) = Some n).
Proof.
  intros Ha Hx Hlen. split.
  - destruct (search_spread_found x Hx 0) as (pre & s & n & -> & Hn & Hf).
    unfold clean_spread, re_search. rewrite Hf.
    pose proof (signed_number_len_bound _ _ Hn) as Hb.
    rewrite length_app in Hlen.
    destruct (parse_decimal_signed_number (take n s)) as (v & Hv & Hp).
    + apply Forall_take. by apply Forall_app in Ha as [_ Ha].
    + rewrite (signed_number_len_take _ _ Hn), length_take. f_equal. lia.
    + rewrite length_take. lia.
    + exists v. split; [done|]. by apply to_numeric_str_parsed.
  - destruct (search_total_found x Hx 0) as (pre & s & n & -> & Hn & Hf).
    unfold clean_total, re_search. rewrite Hf.
    pose proof (number_len_bound _ _ Hn) as Hb.
    rewrite length_app in Hlen.
    destruct (parse_decimal_number (take n s)) as (v & Hv & Hp).
    + apply Forall_take. by apply Forall_app in Ha as [_ Ha].
    + rewrite (number_len_take _ _ Hn), length_take. f_equal. lia.
    + rewrite length_take. lia.
    + exists v. split; [done|]. by apply to_numeric_str_parsed.
Qed.

(** X11. For an ASCII cell of at most 17 characters with a decimal
    digit, the coercion accepts the cleaned [Spread] text and the cleaned
    [Total] text, and reads each as a finite number. *)
Theorem cleaned_number_is_coerced (x : str) :
  is_ascii x -> has_digit x -> (length x <= 17)%nat ->
  (exists n, finite n /\ to_numeric_str (clean_spread x) = Some n)
  /\ (exists n, finite n /\ to_numeric_str (clean_total x) = Some n).
Proof. apply cleaned_number_accepted. Qed.
End CoercionAccepts.

Section WellFormedPage.
Context {U : Runtime} (cfg : config) (E : env).

Lemma to_numeric_strings (l : list str) :
  Forall (fun s => is_Some (to_numeric_str s)) l ->
  exists col, to_numeric (CStr <$> l) = Ok col.
Proof.
  intros Hl. destruct (to_numeric (CStr <$> l)) as [col|e] eqn:Hn; [eauto|].
  assert (Hbad : exists e, to_numeric (CStr <$> l) = Raise e) by eauto.
  apply to_numeric_fails in Hbad as (s & Hs & Hnone).
  apply list_elem_of_fmap in Hs as (s' & [= <-] & Hs').
  rewrite Forall_forall in Hl. apply Hl in Hs'. rewrite Hnone in Hs'.
  by destruct Hs'.
Qed.

(** X12. A page whose labels are distinct, whose four columns hold
    texts, whose [Spread] and [Total] cells are ASCII cells of at most 17
    characters with a digit, and whose cleaned [Moneyline] cells are
    numbers of at most 17 characters, gives a frame: the week is
    exported, and the [Matchup] column of the exported frame is the
    cleaned one. *)
Theorem well_formed_page_is_exported week df (m sp t ml : list str) w :
  load_page E week = Ok df ->
  NoDup (fst <$> df) ->
  get_column MATCHUP df = Some (CStr <$> m) ->
  get_column SPREAD df = Some (CStr <$> sp) ->
  get_column TOTAL df = Some (CStr <$> t) ->
  get_column MONEYLINE df = Some (CStr <$> ml) ->
  Forall short_cell sp ->
  Forall short_cell t ->
  Forall (fun x => short_number (clean_moneyline x)) ml ->
  exists df',
    week_frame E week = Ok df'
    /\ process_week cfg E week w = (Ok tt, exported cfg E week df' w)
    /\ get_column MATCHUP df' = Some (CStr <$> (clean_matchup <$> m)).
Proof.
  intros Hload _ Hm Hsp Ht Hml Fsp Ft Fml.
  assert (Nsp : Forall (fun s => is_Some (to_numeric_str s))
                  (clean_spread <$> sp)).
  { apply Forall_fmap. eapply Forall_impl; [exact Fsp|].
    intros x (Ha & Hd & Hl). simpl.
    destruct (cleaned_number_accepted x Ha Hd Hl) as [(n & _ & ->) _].
    eauto. }
  assert (Nt : Forall (fun s => is_Some (to_numeric_str s))
                 (clean_total <$> t)).
  { apply Forall_fmap. eapply Forall_impl; [exact Ft|].
    intros x (Ha & Hd & Hl). simpl.
    destruct (cleaned_number_accepted x Ha Hd Hl) as [_ (n & _ & ->)].
    eauto. }
  assert (Nml : Forall (fun s => is_Some (to_numeric_str s))
                  (clean_moneyline <$> ml)).
  { apply Forall_fmap. eapply Forall_impl; [exact Fml|].
    intros x (Ha & Hl & Hn). simpl.
    destruct (parse_decimal_signed_number _ Ha Hn Hl) as (n & _ & Hp).
    rewrite (to_numeric_str_parsed _ _ Hp). eauto. }
  destruct (to_numeric_strings _ Nsp) as [csp Hcsp].
  destruct (to_numeric_strings _ Nt) as [ct Hct].
  destruct (to_numeric_strings _ Nml) as [cml Hcml].
  set (d1 := set_column MATCHUP (CStr <$> (clean_matchup <$> m)) df).
  set (d2 := set_column SPREAD (CStr <$> (clean_spread <$> sp)) d1).
  set (d3 := set_column TOTAL (CStr <$> (clean_total <$> t)) d2).
  set (d4 := set_column MONEYLINE (CStr <$> (clean_moneyline <$> ml)) d3).
  assert (Hclean : clean_frame df = Ok d4).
  { unfold clean_frame.
    rewrite (apply_column_str _ _ clean_matchup _ m) by done. simpl.
    rewrite (apply_column_str _ _ clean_spread _ sp)
      by (done || by rewrite get_set_other). simpl.
    rewrite (apply_column_str _ _ clean_total _ t)
      by (done || by do 2 (rewrite get_set_other by done)). simpl.
    rewrite (apply_column_str _ _ clean_moneyline _ ml)
      by (done || by do 3 (rewrite get_set_other by done)). done. }
  set (c1 := set_column SPREAD csp d4).
  set (c2 := set_column TOTAL ct c1).
  set (c3 := set_column MONEYLINE cml c2).
  assert (Hcoerce : coerce_frame d4 = Ok c3).
  { unfold coerce_frame.
    rewrite (coerce_column_some SPREAD d4 (CStr <$> (clean_spread <$> sp))).
    2:{ unfold d4, d3. do 2 (rewrite get_set_other by done).
        apply get_set_same. }
    rewrite Hcsp. simpl.
    rewrite (coerce_column_some TOTAL _ (CStr <$> (clean_total <$> t))).
    2:{ unfold c1, d4. do 2 (rewrite get_set_other by done).
        apply get_set_same. }
    rewrite Hct. simpl.
    rewrite (coerce_column_some MONEYLINE _
               (CStr <$> (clean_moneyline <$> ml))).
    2:{ unfold c2, c1. do 2 (rewrite get_set_other by done).
        apply get_set_same. }
    by rewrite Hcml. }
  assert (Hweek : week_frame E week = Ok c3).
  { unfold week_frame. rewrite Hload. simpl. rewrite Hclean. simpl.
    exact Hcoerce. }
  exists c3. split_and!; [done|by apply process_week_ok|].
  unfold c3, c2, c1, d4, d3, d2. do 6 (rewrite get_set_other by done).
  apply get_set_same.
Qed.
End WellFormedPage.

(** ** The window *)

Section GuiFacts.
Context {U : Runtime}.

Lemma start_scraping_cases driver (g g' : window) :
  start_scraping driver g = Ok g' ->
  start_week_edit g' = start_week_edit g
  /\ end_week_edit g' = end_week_edit g
  /\ ((exists r, valid_fields g r /\ driver = Ok tt
                 /\ worker g' = Some r
                 /\ start_button_enabled g' = false
                 /\ stop_button_enabled g' = true
                 /\ status_text g' = py "Running...")
      \/ (worker g' = worker g
          /\ start_button_enabled g' = true
          /\ stop_button_enabled g' = stop_button_enabled g
          /\ status_text g' <> py "Running..."
          /\ ((forall r, ~ valid_fields g r)
              \/ exists e, driver = Raise e))).
Proof.
  unfold start_scraping.
  set (g1 := set_status (py "Running...") (set_start_button false g)).
  destruct (validate_inputs_cases g1) as [(r & Hr & ->)|(msg & -> & Hm & Hn)];
    simpl.
  - destruct Hr as (Hs & He & Hr). simpl in Hs, He.
    destruct driver as [[]|e].
    + rewrite Hs, He. intros [= <-]. simpl. split_and!; auto.
      left. exists r. destruct r. split_and!; auto. by split_and!.
    + destruct (_ || _); [|done]. intros [= <-]. simpl. split_and!; auto.
      right. split_and!; auto; try (vm_compute; discriminate). eauto.
  - intros [= <-]. simpl. split_and!; auto. right. split_and!; auto.
Qed.

Lemma slot_keeps ev g :
  start_week_edit (slot ev g) = start_week_edit g
  /\ end_week_edit (slot ev g) = end_week_edit g
  /\ worker (slot ev g) = worker g.
Proof. by destruct ev. Qed.

Lemma deliver_keeps evs :
  forall g,
    start_week_edit (deliver evs g) = start_week_edit g
    /\ end_week_edit (deliver evs g) = end_week_edit g
    /\ worker (deliver evs g) = worker g.
Proof.
  induction evs as [|ev evs IH]; intros g; simpl; [done|].
  destruct (IH (slot ev g)) as (-> & -> & ->). apply slot_keeps.
Qed.

Lemma deliver_app evs1 evs2 g :
  deliver (evs1 ++ evs2) g = deliver evs2 (deliver evs1 g).
Proof. apply foldl_app. Qed.
End GuiFacts.

Section GuiTheorems.
Context {U : Runtime} (cfg : config) (E : env).

(** X13. When [start_scraping] returns, the two fields are unchanged and
    either a worker was started, with the numbers of the two fields as
    its weeks, [1 <= start <= end <= 18], the browser at hand, Start
    disabled, Stop enabled and the status [Running...]; or no worker was
    started, Start is enabled again, Stop is as before and the status is
    not [Running...]. *)
Theorem start_scraping_outcome driver (g g' : window) :
  start_scraping driver g = Ok g' ->
  start_week_edit g' = start_week_edit g
  /\ end_week_edit g' = end_week_edit g
  /\ ((exists s e,
         py_int (start_week_edit g) = Some s
         /\ py_int (end_week_edit g) = Some e
         /\ (1 <= s /\ s <= e /\ e <= 18)%Z
         /\ driver = Ok tt
         /\ worker g' = Some (s, e)
         /\ start_button_enabled g' = false
         /\ stop_button_enabled g' = true
         /\ status_text g' = py "Running...")
      \/ (worker g' = worker g
          /\ start_button_enabled g' = true
          /\ stop_button_enabled g' = stop_button_enabled g
          /\ status_text g' <> py "Running...")).
Proof.
  intros H. destruct (start_scraping_cases _ _ _ H) as (Hs & He & Hc).
  split_and!; auto.
  destruct Hc as [([s e] & (Hps & Hpe & Hr) & Hd & Hw & Hb1 & Hb2 & Ht)
                 |(? & ? & ? & ? & _)];
    [left|right; by split_and!].
  exists s, e. split_and!; auto; apply Hr.
Qed.

Lemma run_trace start_week end_week w0 :
  exists evs,
    trace (snd (run cfg E start_week end_week w0))
    = trace w0 ++ evs ++ [EvFinished]
    /\ Forall (fun ev => is_finished ev = false) evs.
Proof.
  destruct (loop cfg E (py_range start_week (end_week + 1)) w0)
    as [r w1] eqn:Hloop.
  rewrite (run_unfold _ _ _ _ _ _ _ Hloop). simpl.
  destruct (loop_trace cfg E (py_range start_week (end_week + 1)) w0)
    as (evs & Ht & Hf).
  rewrite Hloop in Ht. simpl in Ht. rewrite Ht.
  destruct r as [[]|e]; simpl.
  - exists evs. by rewrite <- app_assoc.
  - destruct (handled e); simpl.
    + exists (evs ++ [EvError (error_message e)]). split.
      * by rewrite <- !app_assoc.
      * apply Forall_app. split; [done|]. by repeat constructor.
    + exists evs. by rewrite <- app_assoc.
Qed.

(** X14. Once the signals of a run are delivered, in any of its three
    outcomes, the status reads [Done!], Start is enabled and Stop is
    disabled; the fields and the worker are untouched. An error message
    shown on the way is overwritten. *)
Theorem window_after_a_run start_week end_week w0 (g : window) :
  deliver (drop (length (trace w0))
             (trace (snd (run cfg E start_week end_week w0)))) g
  = Window (start_week_edit g) (end_week_edit g) (py "Done!")
           true false (worker g).
Proof.
  destruct (run_trace start_week end_week w0) as (evs & -> & _).
  rewrite drop_app_length, deliver_app. simpl. unfold on_finished.
  by destruct (deliver_keeps evs g) as (-> & -> & ->).
Qed.

Lemma gui_step_inv a g g' :
  gui_inv g -> gui_step a g = Ok g' -> gui_inv g'.
Proof.
  intros [Hr Hb]. destruct a; simpl.
  - by intros [= <-].
  - by intros [= <-].
  - destruct (start_button_enabled g); [|by intros [= <-]].
    intros H. apply start_scraping_cases in H as (_ & _ & Hc).
    destruct Hc as [(r & (_ & _ & Hv) & _ & Hw & _)
                   |(Hw & _ & Hs & _)]; split.
    + intros r'. rewrite Hw. by intros [= <-].
    + rewrite Hw. eauto.
    + rewrite Hw. exact Hr.
    + rewrite Hw, Hs. exact Hb.
  - destruct (stop_button_enabled g) eqn:Hs; intros [= <-];
      [|split; [exact Hr|by rewrite Hs]].
    unfold stop_scraping. destruct (worker g) eqn:Hw; simpl; split;
      try done; rewrite ?Hw; auto.
  - intros [= <-]. destruct (slot_keeps ev g) as (_ & _ & Hw).
    split; [by rewrite Hw|]. rewrite Hw.
    destruct ev; simpl; auto; done.
Qed.

(** X15. Whatever the user types and clicks and whatever signals arrive,
    starting from the window as it is created: a worker of the window has
    weeks with [1 <= start <= end <= 18], and Stop is enabled only when
    there is a worker. *)
Theorem every_worker_has_a_valid_range (l : list gui_event) (g : window) :
  gui_steps l initial_window = Ok g ->
  (forall s e, worker g = Some (s, e) -> (1 <= s /\ s <= e /\ e <= 18)%Z)
  /\ (stop_button_enabled g = true -> exists r, worker g = Some r).
Proof.
  assert (Hgen : forall g0, gui_inv g0 -> gui_steps l g0 = Ok g -> gui_inv g).
  { induction l as [|a l IH]; intros g0 Hi; simpl.
    - by intros [= <-].
    - destruct (gui_step a g0) as [g1|e] eqn:Ha; [|done].
      apply IH. by eapply gui_step_inv. }
  intros H. destruct (Hgen initial_window) as [Hr Hb]; [|done|].
  - split; [done|]. simpl. done.
  - split; [intros s e Hw; apply (Hr _ Hw)|exact Hb].
Qed.
End GuiTheorems.

(** ** The browser of the thread *)

Section BrowserFacts.

Lemma browser_step_inv c b :
  browsers_inv b -> browsers_inv (browser_step c b).
Proof.
  intros [Hl Hc]. destruct b as [[d|] r n]; unfold cached_set in *;
    simpl in *.
  - destruct c as [l|]; simpl; split; simpl; auto;
      [|apply empty_subseteq].
    intros d'. rewrite elem_of_difference. intros [? _]. auto.
  - destruct c as [[e|e|]|]; simpl; split; simpl; auto;
      try apply empty_subseteq; try apply union_subseteq_l;
      intros d'; rewrite elem_of_union, elem_of_singleton;
      (intros [->|H]; [lia|]); apply Hl in H; lia.
Qed.

Lemma browser_steps_inv cs :
  forall b, browsers_inv b -> browsers_inv (browser_steps cs b).
Proof.
  induction cs as [|c cs IH]; intros b Hb; simpl; [done|].
  apply IH. by apply browser_step_inv.
Qed.

Lemma browser_step_exact c b :
  configured c -> browsers_inv b ->
  running b = cached_set b ->
  running (browser_step c b) = cached_set (browser_step c b).
Proof.
  intros Hc [Hl _]. destruct b as [[d|] r n]; unfold cached_set; simpl.
  - intros ->. destruct c as [l|]; simpl; [done|].
    apply difference_diag_L.
  - intros ->. destruct c as [[e|e|]|]; simpl; try done.
    apply union_empty_r_L.
Qed.

Lemma browser_steps_exact cs :
  forall b, Forall configured cs -> browsers_inv b ->
    running b = cached_set b ->
    running (browser_steps cs b) = cached_set (browser_steps cs b).
Proof.
  induction cs as [|c cs IH]; intros b Hcs Hb Hr; simpl; [done|].
  inversion Hcs; subst.
  apply IH; [done|by apply browser_step_inv|by apply browser_step_exact].
Qed.

Lemma no_browser_inv : browsers_inv no_browser.
Proof.
  split; simpl; [|done]. intros d Hd. by apply not_elem_of_empty in Hd.
Qed.

(** X16. Over any sequence of [get_webdriver] calls and quit handlers
    of a thread: the cached browser is running; while a browser is
    cached, [get_webdriver] returns it and launches nothing; after the
    quit handler none is cached. When no timeout setting fails, the
    running browsers are exactly the cached one, so at most one runs, and
    none runs after the quit handler. *)
Theorem one_browser_at_a_time (cs : list browser_call) :
  let b := browser_steps cs no_browser in
  (forall d, cached b = Some d -> d ∈ running b)
  /\ (forall d l, cached b = Some d -> get_webdriver l b = (Ok d, b))
  /\ cached (about_to_quit b) = None
  /\ (Forall configured cs ->
      running b = cached_set b
      /\ size (running b) <= 1
      /\ running (about_to_quit b) = ∅).
Proof.
  intros b.
  destruct (browser_steps_inv cs no_browser no_browser_inv) as [Hl Hc].
  fold b in Hl, Hc. split_and!.
  - intros d Hd. apply Hc. unfold cached_set. rewrite Hd.
    by apply elem_of_singleton.
  - intros d l Hd. unfold get_webdriver. by rewrite Hd.
  - unfold about_to_quit, stop_webdriver. by destruct (cached b) eqn:Hd.
  - intros Hcs.
    assert (Hr : running b = cached_set b).
    { apply browser_steps_exact; [done|apply no_browser_inv|done]. }
    split_and!; [done| |].
    + rewrite Hr. unfold cached_set. destruct (cached b).
      * by rewrite size_singleton.
      * rewrite size_empty. lia.
    + unfold about_to_quit, stop_webdriver, cached_set in *.
      destruct (cached b) eqn:Hd; simpl; [|done].
      rewrite Hr. apply difference_diag_L.
Qed.
End BrowserFacts.

(** ** The theorems on examples *)

Lemma page_weeks_ok v : @week_ok basic_latin (page_env (py "+7 (-105)")) v.
Proof. split; [reflexivity|eexists; vm_compute; reflexivity]. Defined.

Lemma run_writes_only_week_files_witness :
  exists v df,
    (3 <= v <= 3)%Z
    /\ @week_frame basic_latin (page_env (py "+7 (-105)")) v = Ok df
    /\ [py "output"; py "2503.xlsx"]
       = OUTPUT_PATH demo_config
           ++ [fmt02 (now_year (page_env (py "+7 (-105)")) v - 2000)
               ++ fmt02 v ++ py ".xlsx"].
Proof.
  destruct (@run_writes_only_week_files basic_latin demo_config
              (page_env (py "+7 (-105)")) 3 3 empty_world
              [py "output"; py "2503.xlsx"]
              (to_excel (@frame_of basic_latin (page_env (py "+7 (-105)")) 3)
                 false true))
    as [H|(v & df & Hv & Hdf & Hp & _)].
  - vm_compute. reflexivity.
  - unfold empty_world in H. simpl in H. by rewrite lookup_empty in H.
  - exists v, df. split_and!; [lia|lia|exact Hdf|exact Hp].
Defined.

Lemma run_completes_every_week_witness :
  fst (@run basic_latin demo_config (page_env (py "+7 (-105)")) 1 3
         empty_world) = Completed.
Proof.
  destruct (@run_completes_every_week basic_latin demo_config
              (page_env (py "+7 (-105)")) 1 3 empty_world) as [H _].
  - intros v _. apply page_weeks_ok.
  - rewrite H. reflexivity.
Defined.

Lemma run_on_empty_range_witness :
  @run basic_latin demo_config (page_env (py "+7 (-105)")) 5 3 empty_world
  = (Completed, World ∅ ∅ [EvFinished]).
Proof.
  apply (@run_on_empty_range basic_latin demo_config
           (page_env (py "+7 (-105)")) 5 3 empty_world).
  lia.
Defined.

Lemma run_gives_each_week_its_file_witness :
  files (snd (@run basic_latin demo_config (page_env (py "+7 (-105)")) 1 3
                empty_world))
    !! (OUTPUT_PATH demo_config
          ++ [fmt02 (2025 - 2000) ++ fmt02 2 ++ py ".xlsx"])
  = Some (to_excel (@frame_of basic_latin (page_env (py "+7 (-105)")) 2)
            false true).
Proof.
  refine (@run_gives_each_week_its_file basic_latin demo_config
            (page_env (py "+7 (-105)")) 1 3 2025 empty_world _ _ _ 2%Z _);
    [lia|lia| |lia].
  intros v _. split; [apply page_weeks_ok|reflexivity].
Defined.

Lemma spread_cell_has_digit : @has_digit basic_latin (py "-3.5 (-110)").
Proof. apply Exists_cons_tl, Exists_cons_hd. vm_compute. reflexivity. Defined.

Lemma spread_cell_is_ascii : is_ascii (py "-3.5 (-110)").
Proof. unfold is_ascii. rewrite Forall_forall. intros c Hc.
  repeat (apply elem_of_cons in Hc as [->|Hc]; [vm_compute; reflexivity|]).
  by apply elem_of_nil in Hc.
Defined.

Lemma cleaning_extracts_a_numeral_witness :
  exists pre g post,
    py "-3.5 (-110)" = pre ++ g ++ post
    /\ @numeral basic_latin g
    /\ @clean_total basic_latin (py "-3.5 (-110)") = g.
Proof.
  apply (@cleaning_extracts_a_numeral basic_latin (py "-3.5 (-110)")).
  exact spread_cell_has_digit.
Defined.

Lemma cleaned_number_is_coerced_witness :
  exists n, finite n
            /\ @to_numeric_str basic_latin
                 (@clean_spread basic_latin (py "-3.5 (-110)"))
               = Some n.
Proof.
  apply (@cleaned_number_is_coerced basic_latin (py "-3.5 (-110)")).
  - exact spread_cell_is_ascii.
  - exact spread_cell_has_digit.
  - simpl. lia.
Defined.

Ltac cell_ok :=
  split_and!; [unfold is_ascii|unfold has_digit|]; compute_done.

Ltac number_ok :=
  split_and!; [unfold is_ascii| |]; compute_done.

Lemma well_formed_page_is_exported_witness :
  exists df',
    @week_frame basic_latin (page_env (py "+7 (-105)")) 1 = Ok df'
    /\ get_column MATCHUP df'
       = Some [CStr (py "Jets vs Bills"); CStr (py "Rams vs Colts")].
Proof.
  destruct (@well_formed_page_is_exported basic_latin demo_config
              (page_env (py "+7 (-105)")) 1 (demo_page (py "+7 (-105)"))
              [py "1:00PMEST Jets vs Bills"; py "4:25PMEST Rams vs Colts"]
              [py "-3.5 (-110)"; py "+7 (-105)"]
              [py "47.5u"; py "o44 -110"]
              [MINUS_SIGN :: py "150"; py "+130"]
              empty_world) as (df' & Hdf & _ & Hm);
    try reflexivity.
  - compute_done.
  - apply Forall_cons_2; [cell_ok|apply Forall_cons_2; [cell_ok|]].
    apply Forall_nil_2.
  - apply Forall_cons_2; [cell_ok|apply Forall_cons_2; [cell_ok|]].
    apply Forall_nil_2.
  - apply Forall_cons_2; [number_ok|apply Forall_cons_2; [number_ok|]].
    apply Forall_nil_2.
  - exists df'. split; [exact Hdf|]. rewrite Hm. vm_compute. reflexivity.
Defined.

Lemma start_scraping_outcome_witness :
  exists s e,
    @py_int basic_latin (py "3") = Some s
    /\ @py_int basic_latin (py "5") = Some e
    /\ (1 <= s /\ s <= e /\ e <= 18)%Z.
Proof.
  destruct (@start_scraping_outcome basic_latin (Ok tt)
              (Window (py "3") (py "5") (py "Ready") true false None)
              (Window (py "3") (py "5") (py "Running...") false true
                 (Some (3, 5)%Z)))
    as (_ & _ & [(s & e & Hs & He & Hr & _)|(_ & Hb & _)]).
  - vm_compute. reflexivity.
  - exists s, e. split_and!; [exact Hs|exact He|apply Hr..].
  - discriminate Hb.
Defined.

Lemma every_worker_has_a_valid_range_witness :
  (1 <= 3 /\ 3 <= 5 /\ 5 <= 18)%Z.
Proof.
  apply (proj1 (@every_worker_has_a_valid_range basic_latin
                  [Type_start_week (py "3"); Type_end_week (py "5");
                   Click_start (Ok tt)]
                  (Window (py "3") (py "5") (py "Running...") false true
                     (Some (3, 5)%Z))
                  ltac:(vm_compute; reflexivity))).
  reflexivity.
Defined.
